(** * pytest-testrail: result batching and reconciliation

    A shallow embedding of [pytest_testrail/plugin.py] (class
    [PyTestRailPlugin]) and the properties of its result accumulator, batch
    publisher and error reconciliation.

    Conventions of the embedding
    - a Python [str] is a [list ascii] ([str]); literals are written
      [lit "..."];
    - a Python [int] is a [Z]; a Python [float] is a binary64 value of
      [SpecFloat.spec_float];
    - the plugin object and the requests received by the HTTP client form the
      state threaded by the monad [M]; an exception is the left injection of the
      result;
    - the HTTP client and the objects it returns are not part of the plugin:
      they are the interface [Client]. *)

From Stdlib Require Import Ascii String DecimalString DecimalPos.
From Stdlib Require Import ZArith QArith Qabs Bool Lia.
From Stdlib Require Floats.SpecFloat.
From Stdlib Require Import List Sorted Permutation.
Import ListNotations.

Local Open Scope Z_scope.
Local Open Scope list_scope.

(** ** Python strings *)

Definition str := list ascii.

Definition lit (s : string) : str := list_ascii_of_string s.

Module Str.

Fixpoint eqb (a b : str) : bool :=
  match a, b with
  | [], [] => true
  | x :: a', y :: b' => Ascii.eqb x y && eqb a' b'
  | _, _ => false
  end.

(** [s.startswith(p)] *)
Fixpoint startswith (p s : str) : bool :=
  match p, s with
  | [], _ => true
  | x :: p', y :: s' => Ascii.eqb x y && startswith p' s'
  | _ :: _, [] => false
  end.

(** [p in s] for two strings: [p] occurs in [s] as a substring. *)
Fixpoint contains (p s : str) : bool :=
  startswith p s ||
  match s with
  | [] => false
  | _ :: s' => contains p s'
  end.

(** One left-to-right scan shared by [split] and [replace]: the text before
    the first occurrence of [sep] and the pieces after it.  [skip] counts
    the characters of an occurrence of [sep] still to be passed over. *)
Fixpoint scan (sep s : str) (skip : nat) : str * list str :=
  match s with
  | [] => ([], [])
  | c :: s' =>
      match skip with
      | S k => scan sep s' k
      | O =>
          if startswith sep s
          then ([], let (p, ps) := scan sep s' (length sep - 1) in p :: ps)
          else let (p, ps) := scan sep s' 0 in (c :: p, ps)
      end
  end.

(** [s.split(sep)] for a non-empty separator. *)
Definition split (sep s : str) : list str :=
  let (p, ps) := scan sep s 0 in p :: ps.

(** [new.join(parts)] *)
Fixpoint join (new : str) (parts : list str) : str :=
  match parts with
  | [] => []
  | [p] => p
  | p :: ps => p ++ new ++ join new ps
  end.

(** [s.replace(old, new)] for a non-empty [old]. *)
Definition replace (old new s : str) : str := join new (split old s).

(** [s[-n:]] for [n > 0]: the last [n] characters, all of [s] when it is
    shorter. *)
Definition last_chars (n : nat) (s : str) : str :=
  skipn (length s - n) s.

(** [s[1:]] *)
Definition drop_first (s : str) : str := tl s.

(** [str(n)] for an [int]. *)
Definition of_Z (n : Z) : str :=
  list_ascii_of_string (NilZero.string_of_int (Z.to_int n)).

End Str.

(** ** The fragment of [re] used by the plugin

    A backtracking matcher in continuation-passing style, with Python's
    priorities: a greedy repetition tries the longest run first, a lazy one
    the shortest.  Repetitions range over character classes, which is all the
    plugin's pattern needs. *)

Module Re.

Inductive regex :=
| Lit (s : str)                               (* literal text *)
| Star (greedy : bool) (cls : ascii -> bool)  (* [c*] or [c*?] *)
| Plus (greedy : bool) (cls : ascii -> bool)  (* [c+] or [c+?] *)
| Group (r : regex)                           (* [( r )] *)
| Cat (r1 r2 : regex).

(** [\d] on ASCII text *)
Definition digit (c : ascii) : bool :=
  let n := nat_of_ascii c in (48 <=? n)%nat && (n <=? 57)%nat.

(** [.] without DOTALL: anything but a line feed *)
Definition dot (c : ascii) : bool := negb (Ascii.eqb c "010"%char).

Fixpoint strip_prefix (p s : str) : option str :=
  match p, s with
  | [], _ => Some s
  | x :: p', y :: s' => if Ascii.eqb x y then strip_prefix p' s' else None
  | _ :: _, [] => None
  end.

Section Matcher.
Variable R : Type.

Fixpoint rep_greedy (cls : ascii -> bool) (s : str)
         (k : str -> option R) : option R :=
  match s with
  | c :: s' =>
      if cls c then
        match rep_greedy cls s' k with
        | Some r => Some r
        | None => k s
        end
      else k s
  | [] => k s
  end.

Fixpoint rep_lazy (cls : ascii -> bool) (s : str)
         (k : str -> option R) : option R :=
  match k s with
  | Some r => Some r
  | None =>
      match s with
      | c :: s' => if cls c then rep_lazy cls s' k else None
      | [] => None
      end
  end.

Definition rep (greedy : bool) := if greedy then rep_greedy else rep_lazy.

(** [rmatch r s gs k]: match [r] at the head of [s]; [gs] are the groups
    closed so far; [k] continues with the rest of the text. *)
Fixpoint rmatch (r : regex) (s : str) (gs : list str)
         (k : str -> list str -> option R) : option R :=
  match r with
  | Lit l =>
      match strip_prefix l s with
      | Some s' => k s' gs
      | None => None
      end
  | Star g cls => rep g cls s (fun s' => k s' gs)
  | Plus g cls =>
      match s with
      | c :: s' => if cls c then rep g cls s' (fun s'' => k s'' gs) else None
      | [] => None
      end
  | Group r1 =>
      rmatch r1 s gs
        (fun s' gs' => k s' (gs' ++ [firstn (length s - length s') s]))
  | Cat r1 r2 => rmatch r1 s gs (fun s' gs' => rmatch r2 s' gs' k)
  end.
End Matcher.

Arguments rep_greedy {R} cls s k.
Arguments rep_lazy {R} cls s k.
Arguments rep {R} greedy cls s k.
Arguments rmatch {R} r s gs k.

(** A match at the head of [s]: its groups and the text after it. *)
Definition match_here (r : regex) (s : str) : option (list str * str) :=
  rmatch r s [] (fun s' gs => Some (gs, s')).

(** [re.finditer(r, s)] for a pattern that cannot match the empty string:
    the groups of the leftmost matches, which do not overlap.  [skip] counts
    the characters of the last match still to be passed over. *)
Fixpoint finditer_from (r : regex) (s : str) (skip : nat) : list (list str) :=
  match s with
  | [] => []
  | _ :: s' =>
      match skip with
      | S n => finditer_from r s' n
      | O =>
          match match_here r s with
          | Some (gs, rest) =>
              gs :: finditer_from r s' (length s - length rest - 1)
          | None => finditer_from r s' 0
          end
      end
  end.

Definition finditer (r : regex) (s : str) : list (list str) :=
  finditer_from r s 0.

(** [match.group(i)] for [i >= 1] *)
Definition group (i : nat) (gs : list str) : str := nth (i - 1) gs [].

End Re.

(** ** Constants of the module *)

(** [TESTRAIL_TEST_STATUS] *)
Module TESTRAIL_TEST_STATUS.
Definition passed : Z := 1.
Definition blocked : Z := 2.
Definition untested : Z := 3.
Definition retest : Z := 4.
Definition failed : Z := 5.
Definition deferred : Z := 6.
Definition NA : Z := 7.
Definition terraformerror : Z := 8.
End TESTRAIL_TEST_STATUS.

Definition LF : ascii := "010"%char.

Definition TESTRAIL_PREFIX : str := lit "testrail".
Definition ADD_RESULTS_URL (run : str) : str := lit "add_results_for_cases/" ++ run.
Definition CLOSE_TESTRUN_URL (run : str) : str := lit "close_run/" ++ run.
Definition CLOSE_TESTPLAN_URL (plan : str) : str := lit "close_plan/" ++ plan.
Definition GET_TESTPLAN_URL (plan : str) : str := lit "get_plan/" ++ plan.
Definition GET_TESTS_URL (run : str) : str := lit "get_tests/" ++ run.
(** ['add_result_for_case/{}/{}'] of [add_terraform_error_results] *)
Definition ADD_RESULT_FOR_CASE_URL (run test_id : str) : str :=
  lit "add_result_for_case/" ++ run ++ lit "/" ++ test_id.

Definition COMMENT_SIZE_LIMIT : nat := 4000.

(** The text that marks an infrastructure failure. *)
Definition TERRAFORM_MARKER : str := lit "TerraformException".
(** ["Log truncated\n...\n"] *)
Definition TRUNCATION_MARKER : str :=
  lit "Log truncated" ++ [LF] ++ lit "..." ++ [LF].
(** ["# Pytest result: #\n"] *)
Definition PYTEST_RESULT_HEADING : str := lit "# Pytest result: #" ++ [LF].
(** ["# Test parametrize: #\n"] *)
Definition TEST_PARAMETRIZE_HEADING : str := lit "# Test parametrize: #" ++ [LF].
(** ["    "] *)
Definition INDENT : str := lit "    ".
Definition NO_RESULTS_MESSAGE : str := lit "No test results to publish in TestRail".

(** [r'case (\d+).*?TerraformException: (.+?)\\n']: the pattern ends with a
    backslash followed by the letter n, not with a line feed. *)
Definition TERRAFORM_RE : Re.regex :=
  Re.Cat (Re.Lit (lit "case "))
 (Re.Cat (Re.Group (Re.Plus true Re.digit))
 (Re.Cat (Re.Star false Re.dot)
 (Re.Cat (Re.Lit (lit "TerraformException: "))
 (Re.Cat (Re.Group (Re.Plus false Re.dot))
         (Re.Lit (lit "\n")))))).

(** ** Floats: the duration of a test *)

Module PyFloat.
Import SpecFloat.

Definition float := spec_float.

(** [bool(x)]: every float but the two zeros is true. *)
Definition truth (x : float) : bool :=
  match x with
  | S754_zero _ => false
  | _ => true
  end.

(** [x < 1] *)
Definition lt_one (x : float) : bool :=
  match x with
  | S754_zero _ => true
  | S754_infinity s => s
  | S754_nan => false
  | S754_finite true _ _ => true
  | S754_finite false m e =>
      if 0 <=? e then false else Zpos m <? 2 ^ (- e)
  end.

(** Round half to even the positive number [m * 2^e]. *)
Definition round_half_even (m : positive) (e : Z) : Z :=
  if 0 <=? e then Zpos m * 2 ^ e
  else
    let d := 2 ^ (- e) in
    let q := Zpos m / d in
    let r := Zpos m mod d in
    if (2 * r <? d) then q
    else if (d <? 2 * r) then q + 1
    else if Z.even q then q else q + 1.

(** The rational [m * 2^e]. *)
Definition magnitude (m : positive) (e : Z) : Q :=
  if 0 <=? e then inject_Z (Zpos m * 2 ^ e)
  else Qmake (Zpos m) (Z.to_pos (2 ^ (- e))).

(** The value of a finite float as a rational. *)
Definition to_Q (x : float) : option Q :=
  match x with
  | S754_zero _ => Some 0%Q
  | S754_finite s m e =>
      Some (if s then Qopp (magnitude m e) else magnitude m e)
  | _ => None
  end.

(** The binary64 values nearest to 0.4, 1.4 and 2.6. *)
Definition f_0_4 : float := S754_finite false 7205759403792794 (-54).
Definition f_1_4 : float := S754_finite false 6305039478318694 (-52).
Definition f_2_6 : float := S754_finite false 5854679515581645 (-51).
End PyFloat.

(** ** Data model *)

(** The value of [item.callspec.params]: whether the dict is non-empty and
    what [str()] prints for it. *)
Record Params := mkParams {
  params_truth : bool;
  params_str : str
}.

(** One element of [self.results] (the dict built by [add_result]). *)
Record ResultRecord := mkResult {
  case_id : Z;
  status_id : Z;
  comment : str;
  duration : PyFloat.float;
  defects : option str;
  test_parametrize : option Params
}.

(** One element of the ['results'] list of an upload.  [None] in [e_version]
    and [e_elapsed] is a key that is absent, [None] in [e_defects] and
    [e_comment] is the value [None]. *)
Record Entry := mkEntry {
  e_status_id : Z;
  e_case_id : Z;
  e_defects : option str;
  e_version : option str;
  e_comment : option str;
  e_elapsed : option str
}.

(** The bodies the plugin posts. *)
Inductive Body :=
| BResults (entries : list Entry)          (* [{'results': [...]}] *)
| BResult (status_id : str) (comment : str) (* [{'status_id': .., 'comment': ..}] *)
| BEmpty.                                  (* [{}] *)

(** A call of the client; [None] is a call without the [cert_check] keyword. *)
Inductive Request :=
| POST (path : str) (data : Body) (cert_check : option bool)
| GET (path : str) (cert_check : option bool).

(** Errors raised by the interpreter while it runs plugin code. *)
Inductive pyerr :=
| IndexError | UnboundLocalError | TypeError | AttributeError | KeyError
| ValueError | OverflowError.

Inductive exn :=
| Exception (msg : str)   (* [raise Exception(msg)] in the plugin *)
| Builtin (e : pyerr)
| ClientRaised (msg : str). (* raised inside the client *)

(** The fields of [PyTestRailPlugin] read or written at session finish. *)
Record Plugin := mkPlugin {
  results : list ResultRecord;
  testrun_id : Z;
  testplan_id : Z;
  version : str;
  close_on_complete : bool;
  publish_blocked : bool;
  custom_comment : option str;
  cert_check : bool
}.

Definition set_results (l : list ResultRecord) (p : Plugin) : Plugin :=
  mkPlugin l (testrun_id p) (testplan_id p) (version p) (close_on_complete p)
           (publish_blocked p) (custom_comment p) (cert_check p).

(** The plugin together with the requests its client has received, oldest
    first. *)
Record State := mkState {
  self : Plugin;
  sent : list Request
}.

(** ** The client

    [self.client] and the objects it returns.  The plugin iterates over
    responses, calls [.get], indexes them, reads [.status_code], tests them
    and prints them, so these operations are part of the interface; each may
    raise.  A response may depend on the requests received before. *)
Class Client := {
  Obj : Type;
  reply : list Request -> Request -> str + Obj;
  get_error : Obj -> option str;
  obj_iter : Obj -> pyerr + list Obj;          (* [for x in o] *)
  obj_get : Obj -> str -> pyerr + option Obj;  (* [o.get(key)], [None]: no key *)
  obj_getitem : Obj -> str -> pyerr + Obj;     (* [o[key]] *)
  obj_status_code : Obj -> pyerr + unit;       (* [o.status_code] *)
  obj_contains : str -> Obj -> pyerr + bool;   (* [text in o] *)
  obj_eq_int : Obj -> Z -> bool;               (* [o == n] *)
  obj_truth : Obj -> bool;                     (* [bool(o)] *)
  obj_str : Obj -> str                         (* [str(o)] *)
}.

(** [bool(x)] for [x] a string or [None] *)
Definition truthy (x : option str) : bool :=
  match x with
  | Some (_ :: _) => true
  | _ => false
  end.

(** ** The monad of plugin methods *)

Definition M (A : Type) : Type := State -> State * (exn + A).

Definition ret {A} (a : A) : M A := fun st => (st, inr a).

Definition bind {A B} (m : M A) (k : A -> M B) : M B :=
  fun st =>
    match m st with
    | (st', inr a) => k a st'
    | (st', inl e) => (st', inl e)
    end.

Definition raise {A} (e : exn) : M A := fun st => (st, inl e).

Definition get_self : M Plugin := fun st => (st, inr (self st)).

Definition put_results (l : list ResultRecord) : M unit :=
  fun st => (mkState (set_results l (self st)) (sent st), inr tt).

(** A computation of the interpreter that touches no state. *)
Definition lift {A} (x : pyerr + A) : M A :=
  fun st =>
    match x with
    | inr a => (st, inr a)
    | inl e => (st, inl (Builtin e))
    end.

Declare Scope monad_scope.
Delimit Scope monad_scope with monad.
Notation "x <- c ;; k" := (bind c (fun x => k))
  (at level 61, c at next level, right associativity) : monad_scope.
Notation "c ;; k" := (bind c (fun _ => k))
  (at level 61, right associativity) : monad_scope.

(** The same for pure code that may raise. *)
Definition bind_err {A B} (x : pyerr + A) (k : A -> pyerr + B) : pyerr + B :=
  match x with
  | inr a => k a
  | inl e => inl e
  end.

Declare Scope err_scope.
Delimit Scope err_scope with err.
Notation "x <- c ;; k" := (bind_err c (fun x => k))
  (at level 61, c at next level, right associativity) : err_scope.

(** [for x in l: body(x)] *)
Fixpoint for_each {A} (l : list A) (body : A -> M unit) : M unit :=
  match l with
  | [] => ret tt
  | x :: l' => bind (body x) (fun _ => for_each l' body)
  end.

(** A list comprehension whose element expression may raise. *)
Fixpoint map_err {A B} (f : A -> pyerr + B) (l : list A) : pyerr + list B :=
  match l with
  | [] => inr []
  | x :: l' =>
      bind_err (f x) (fun y => bind_err (map_err f l') (fun ys => inr (y :: ys)))
  end.

(** ** Plugin methods *)

(** What a caller passes as [comment]: a [str], or another object, of which
    only [str(comment)] is observed. *)
Inductive comment_arg :=
| CommentStr (s : str)
| CommentObj (printed : str).

Definition comment_text (c : comment_arg) : str :=
  match c with
  | CommentStr s => s
  | CommentObj s => s
  end.

(** Values compared by [in] in the reconciliation code. *)
Inductive pyval :=
| VInt (n : Z)
| VStr (s : str).

(** [a == b]: an [int] is never equal to a [str]. *)
Definition py_eqb (a b : pyval) : bool :=
  match a, b with
  | VInt x, VInt y => x =? y
  | VStr x, VStr y => Str.eqb x y
  | _, _ => false
  end.

(** [x in l] *)
Definition py_in (x : pyval) (l : list pyval) : bool := existsb (py_eqb x) l.

(** The loop of [add_result]; [status] and [comment] are the local variables
    the loop body rebinds. *)
Fixpoint add_result_loop (test_ids : list Z) (status : Z) (comment : comment_arg)
         (defects : option str) (duration : PyFloat.float)
         (test_parametrize : option Params)
         (acc : list ResultRecord) : list ResultRecord :=
  match test_ids with
  | [] => acc
  | test_id :: rest =>
      let comment :=
        match comment with
        | CommentStr _ => comment
        | CommentObj _ => CommentStr (comment_text comment)
        end in
      let status :=
        if (status =? 5) && Str.contains TERRAFORM_MARKER (comment_text comment)
        then 8 else status in
      let data :=
        mkResult test_id status (comment_text comment) duration defects
                 test_parametrize in
      add_result_loop rest status comment defects duration test_parametrize
                      (acc ++ [data])
  end.

(** [add_result(test_ids, status, comment, defects, duration, test_parametrize)] *)
Definition add_result (test_ids : list Z) (status : Z) (comment : comment_arg)
           (defects : option str) (duration : PyFloat.float)
           (test_parametrize : option Params) : M unit :=
  fun st =>
    (mkState
       (set_results
          (add_result_loop test_ids status comment defects duration
                           test_parametrize (results (self st)))
          (self st))
       (sent st),
     inr tt).

(** [self.results.sort(key=itemgetter("case_id"))]: [list.sort] is stable, and
    a stable sort has one result, computed here by insertion. *)
Fixpoint insert_by_case_id (x : ResultRecord) (l : list ResultRecord)
  : list ResultRecord :=
  match l with
  | [] => [x]
  | y :: l' =>
      if case_id x <=? case_id y then x :: l else y :: insert_by_case_id x l'
  end.

Definition sort_by_case_id (l : list ResultRecord) : list ResultRecord :=
  fold_right insert_by_case_id [] l.

(** [int(round(x))] *)
Definition py_round (x : PyFloat.float) : pyerr + Z :=
  match x with
  | SpecFloat.S754_zero _ => inr 0
  | SpecFloat.S754_infinity _ => inl OverflowError
  | SpecFloat.S754_nan => inl ValueError
  | SpecFloat.S754_finite s m e =>
      let n := PyFloat.round_half_even m e in
      inr (if s then - n else n)
  end.

(** The [elapsed] field of an entry, lines 486-491. *)
Definition entry_elapsed (duration : PyFloat.float) : pyerr + option str :=
  if PyFloat.truth duration then
    bind_err (if PyFloat.lt_one duration then inr 1 else py_round duration)
             (fun n => inr (Some (Str.of_Z n ++ lit "s")))
  else inr None.

(** The text added under the heading, lines 460-470 and 473-483. *)
Definition pytest_result_text (comment : str) : str :=
  PYTEST_RESULT_HEADING
  ++ (if (COMMENT_SIZE_LIMIT <? length comment)%nat then TRUNCATION_MARKER else [])
  ++ INDENT
  ++ Str.replace [LF] (LF :: INDENT) (Str.last_chars COMMENT_SIZE_LIMIT comment).

(** The [comment] field of an entry, lines 450-485. *)
Definition parametrize_text (r : ResultRecord) : str :=
  match test_parametrize r with
  | Some p =>
      if params_truth p
      then TEST_PARAMETRIZE_HEADING ++ params_str p ++ [LF; LF]
      else []
  | None => []
  end.

Definition entry_comment (custom_comment : option str) (r : ResultRecord)
  : option str :=
  let c0 := parametrize_text r in
  match comment r with
  | _ :: _ =>
      match custom_comment with
      | Some ((_ :: _) as custom) =>
          Some (c0 ++ custom ++ [LF] ++ pytest_result_text (comment r))
      | _ => Some (c0 ++ pytest_result_text (comment r))
      end
  | [] => custom_comment
  end.

(** The body of the loop that builds the upload, lines 442-492. *)
Definition build_entry (p : Plugin) (r : ResultRecord) : pyerr + Entry :=
  bind_err (entry_elapsed (duration r))
    (fun elapsed =>
       inr (mkEntry (status_id r) (case_id r) (defects r)
                    (match version p with [] => None | v => Some v end)
                    (entry_comment (custom_comment p) r)
                    elapsed)).

(** What the loop variable of [for x in l] is bound to after the loop. *)
Definition last_bound {A} (l : list A) : option A := last (map Some l) None.

Section WithClient.
Context {client : Client}.
Local Open Scope monad_scope.

Definition send (req : Request) : M Obj :=
  fun st =>
    let st' := mkState (self st) (sent st ++ [req]) in
    match reply (sent st) req with
    | inr o => (st', inr o)
    | inl msg => (st', inl (ClientRaised msg))
    end.

Definition send_post (path : str) (data : Body) (cc : option bool) : M Obj :=
  send (POST path data cc).

Definition send_get (path : str) (cc : option bool) : M Obj :=
  send (GET path cc).

(** [str(x)] for [x] an object of the client or [None] *)
Definition str_of_opt (x : option Obj) : str :=
  match x with
  | Some o => obj_str o
  | None => lit "None"
  end.

(** [extract_terraform_errors]: the dict [terraform_errors], in insertion
    order; assigning to a key that is present keeps its place. *)
Fixpoint dict_set (k v : str) (d : list (str * str)) : list (str * str) :=
  match d with
  | [] => [(k, v)]
  | (k', v') :: d' =>
      if Str.eqb k k' then (k, v) :: d' else (k', v') :: dict_set k v d'
  end.

Definition terraform_matches (error_message : str) : list (str * str) :=
  map (fun gs => (Re.group 1 gs, Re.group 2 gs))
      (Re.finditer TERRAFORM_RE error_message).

Definition extract_terraform_errors (error_message : str) : list (str * str) :=
  fold_left (fun d m => dict_set (fst m) (snd m) d)
            (terraform_matches error_message) [].

(** [add_terraform_error_results] *)
Definition terraform_request (testrun_id test_id terraform_error : str)
  : Request :=
  POST (ADD_RESULT_FOR_CASE_URL testrun_id test_id)
       (BResult (lit "8") (lit "Terraform Exception: " ++ terraform_error))
       None.

Definition add_terraform_error_results (testrun_id test_id terraform_error : str)
  : M unit :=
  _ <- send (terraform_request testrun_id test_id terraform_error) ;;
  ret tt.

(** [add_error_results] *)
Definition strip_C (id : str) : str :=
  if Str.startswith (lit "C") id then Str.drop_first id else id.

Definition not_in_ids (invalid_test_ids : list str) (r : ResultRecord) : bool :=
  negb (py_in (VInt (case_id r)) (map VStr invalid_test_ids)).

Definition error_entry (error : str) (r : ResultRecord) : Entry :=
  mkEntry TESTRAIL_TEST_STATUS.failed (case_id r) (Some []) None (Some error)
          None.

Definition error_request (testrun_id error : str) (cc : bool)
           (r : ResultRecord) : Request :=
  POST (ADD_RESULTS_URL testrun_id) (BResults [error_entry error r]) (Some cc).

Definition add_error_results (testrun_id : str) (invalid_test_ids : list str)
           (error : str) : M unit :=
  let invalid_test_ids := map strip_C invalid_test_ids in
  p <- get_self ;;
  let valid_results := filter (not_in_ids invalid_test_ids) (results p) in
  for_each valid_results
    (fun result =>
       response <- send (error_request testrun_id error (cert_check p) result) ;;
       let error_response := get_error response in
       ret tt).

(** [get_tests] *)
Definition get_tests (run_id : str) : M (option Obj) :=
  p <- get_self ;;
  response <- send_get (GET_TESTS_URL run_id) (Some (cert_check p)) ;;
  if truthy (get_error response) then ret None else ret (Some response).

Definition eq_int_opt (x : option Obj) (n : Z) : bool :=
  match x with
  | Some o => obj_eq_int o n
  | None => false
  end.

(** [[test.get("case_id") for test in tests if test.get("status_id") == 2]] *)
Fixpoint blocked_tests_list (tests : list Obj) : pyerr + list (option Obj) :=
  match tests with
  | [] => inr []
  | test :: rest =>
      bind_err (obj_get test (lit "status_id"))
        (fun st =>
           if eq_int_opt st TESTRAIL_TEST_STATUS.blocked then
             bind_err (obj_get test (lit "case_id"))
               (fun c =>
                  bind_err (blocked_tests_list rest) (fun l => inr (c :: l)))
           else blocked_tests_list rest)
  end.

(** [result.get("case_id") not in blocked_tests_list] *)
Definition not_blocked (blocked : list (option Obj)) (r : ResultRecord) : bool :=
  negb (existsb (fun b => eq_int_opt b (case_id r)) blocked).

(** Lines 409-430 of [add_results]. *)
Definition exclude_blocked (testrun_id : str) : M unit :=
  p <- get_self ;;
  if publish_blocked p then ret tt
  else
    tests <- get_tests testrun_id ;;
    match tests with
    | None => raise (Builtin TypeError)
    | Some t =>
        items <- lift (obj_iter t) ;;
        blocked <- lift (blocked_tests_list items) ;;
        p <- get_self ;;
        put_results (filter (not_blocked blocked) (results p))
    end.

(** The loop over the response of the upload, lines 501-505. *)
Definition report_terraform (testrun_id : str) (resp : Obj) : M unit :=
  comment <- lift (obj_get resp (lit "comment")) ;;
  hit <- lift (match comment with
               | Some c => obj_contains TERRAFORM_MARKER c
               | None => inr false
               end) ;;
  if (hit : bool) then
    status_id <- lift (obj_get resp (lit "status_id")) ;;
    add_terraform_error_results testrun_id (str_of_opt status_id)
                                (str_of_opt comment)
  else ret tt.

(** [add_results] *)
Definition add_results (testrun_id : str) : M (option str) :=
  p <- get_self ;;
  put_results (sort_by_case_id (results p)) ;;
  exclude_blocked testrun_id ;;
  p <- get_self ;;
  data <- lift (map_err (build_entry p) (results p)) ;;
  response <- send_post (ADD_RESULTS_URL testrun_id) (BResults data)
                        (Some (cert_check p)) ;;
  items <- lift (obj_iter response) ;;
  for_each items (report_terraform testrun_id) ;;
  match last_bound items with
  | None => raise (Builtin UnboundLocalError)
  | Some resp =>
      let error := get_error resp in
      if truthy error then
        lift (obj_status_code resp) ;;
        let error := get_error resp in
        ret error
      else ret None
  end.

(** The ids named by a rejected upload, lines 295-296. *)
Definition invalid_test_ids (error : str) : pyerr + list str :=
  let error_message_parts := Str.split (lit ")") error in
  map_err
    (fun part =>
       match nth_error (Str.split (lit "case ") part) 1 with
       | Some x => inr (hd [] (Str.split (lit " ") x))
       | None => inl IndexError
       end)
    (filter (Str.contains (lit "case")) error_message_parts).

(** [publish_results_for_run] *)
Definition publish_results_for_run (testrun_id : str) : M unit :=
  error <- add_results testrun_id ;;
  if truthy error then
    let error := match error with Some e => e | None => [] end in
    let terraform_errors := extract_terraform_errors error in
    match terraform_errors with
    | _ :: _ =>
        for_each terraform_errors
          (fun kv => add_terraform_error_results testrun_id (fst kv) (snd kv))
    | [] =>
        invalid_test_ids <- lift (invalid_test_ids error) ;;
        p <- get_self ;;
        let valid_results :=
          filter (not_in_ids invalid_test_ids) (results p) in
        for_each invalid_test_ids
          (fun invalid_test_id =>
             add_error_results testrun_id [invalid_test_id] error)
    end
  else ret tt.

(** [get_available_testruns] *)
Fixpoint open_runs (runs : list Obj) : pyerr + list Obj :=
  match runs with
  | [] => inr []
  | run :: rest =>
      bind_err (obj_getitem run (lit "is_completed"))
        (fun c =>
           if obj_truth c then open_runs rest
           else
             bind_err (obj_getitem run (lit "id"))
               (fun id => bind_err (open_runs rest) (fun l => inr (id :: l))))
  end.

Fixpoint open_runs_of_entries (entries : list Obj) : pyerr + list Obj :=
  match entries with
  | [] => inr []
  | entry :: rest =>
      bind_err (obj_getitem entry (lit "runs"))
        (fun runs =>
           bind_err (obj_iter runs)
             (fun runs =>
                bind_err (open_runs runs)
                  (fun l =>
                     bind_err (open_runs_of_entries rest)
                       (fun l' => inr (l ++ l')))))
  end.

Definition get_available_testruns (plan_id : str) : M (list Obj) :=
  p <- get_self ;;
  response <- send_get (GET_TESTPLAN_URL plan_id) (Some (cert_check p)) ;;
  if truthy (get_error response) then ret []
  else
    entries <- lift (bind_err (obj_getitem response (lit "entries")) obj_iter) ;;
    lift (open_runs_of_entries entries).

(** [close_test_run] and [close_test_plan] *)
Definition close_test_run (testrun_id : str) : M unit :=
  p <- get_self ;;
  response <- send_post (CLOSE_TESTRUN_URL testrun_id) BEmpty
                        (Some (cert_check p)) ;;
  let error := get_error response in
  ret tt.

Definition close_test_plan (testplan_id : str) : M unit :=
  p <- get_self ;;
  response <- send_post (CLOSE_TESTPLAN_URL testplan_id) BEmpty
                        (Some (cert_check p)) ;;
  let error := get_error response in
  ret tt.

(** Lines 266-274 of [pytest_sessionfinish]. *)
Definition publish_selected : M unit :=
  p <- get_self ;;
  if negb (testrun_id p =? 0) then
    publish_results_for_run (Str.of_Z (testrun_id p))
  else if negb (testplan_id p =? 0) then
    testruns <- get_available_testruns (Str.of_Z (testplan_id p)) ;;
    for_each testruns (fun run => publish_results_for_run (obj_str run))
  else ret tt.

(** Lines 276-280 of [pytest_sessionfinish]. *)
Definition close_selected : M unit :=
  p <- get_self ;;
  if close_on_complete p then
    if negb (testrun_id p =? 0) then close_test_run (Str.of_Z (testrun_id p))
    else if negb (testplan_id p =? 0) then
      close_test_plan (Str.of_Z (testplan_id p))
    else ret tt
  else ret tt.

(** [pytest_sessionfinish] *)
Definition pytest_sessionfinish : M unit :=
  p <- get_self ;;
  match results p with
  | [] => raise (Exception NO_RESULTS_MESSAGE)
  | _ :: _ =>
      publish_selected ;;
      close_selected ;;
      ret tt
  end.

End WithClient.

(** ** A scripted client

    A client that answers the n-th request it receives with the n-th element
    of a script, over a small universe of response objects.  It is used to run
    the plugin on concrete sessions. *)

#[local] Unset Elimination Schemes.
Inductive stub :=
| SNone
| SInt (n : Z)
| SText (s : str)
| SList (items : list stub)
| SRecord (fields : list (str * stub)) (status_code : bool).
#[local] Set Elimination Schemes.

Fixpoint lookup (key : str) (fields : list (str * stub)) : option stub :=
  match fields with
  | [] => None
  | (k, v) :: rest => if Str.eqb key k then Some v else lookup key rest
  end.

Definition stub_error (o : stub) : option str :=
  match o with
  | SRecord fields _ =>
      match lookup (lit "error") fields with
      | Some (SText s) => Some s
      | _ => None
      end
  | _ => None
  end.

Definition stub_iter (o : stub) : pyerr + list stub :=
  match o with
  | SList items => inr items
  | SRecord fields _ => inr (map (fun kv => SText (fst kv)) fields)
  | SText s => inr (map (fun c => SText [c]) s)
  | _ => inl TypeError
  end.

Definition stub_get (o : stub) (key : str) : pyerr + option stub :=
  match o with
  | SRecord fields _ => inr (lookup key fields)
  | _ => inl AttributeError
  end.

Definition stub_getitem (o : stub) (key : str) : pyerr + stub :=
  match o with
  | SRecord fields _ =>
      match lookup key fields with
      | Some v => inr v
      | None => inl KeyError
      end
  | _ => inl TypeError
  end.

Definition stub_status_code (o : stub) : pyerr + unit :=
  match o with
  | SRecord _ true => inr tt
  | _ => inl AttributeError
  end.

Definition stub_contains (text : str) (o : stub) : pyerr + bool :=
  match o with
  | SText s => inr (Str.contains text s)
  | SRecord fields _ => inr (existsb (fun kv => Str.eqb text (fst kv)) fields)
  | SList items =>
      inr (existsb (fun item => match item with
                                | SText s => Str.eqb text s
                                | _ => false
                                end) items)
  | SNone | SInt _ => inl TypeError
  end.

Definition stub_eq_int (o : stub) (n : Z) : bool :=
  match o with
  | SInt m => m =? n
  | _ => false
  end.

Definition stub_truth (o : stub) : bool :=
  match o with
  | SNone => false
  | SInt n => negb (n =? 0)
  | SText s => negb (Nat.eqb (length s) 0)
  | SList l => negb (Nat.eqb (length l) 0)
  | SRecord fields _ => negb (Nat.eqb (length fields) 0)
  end.

Definition stub_str (o : stub) : str :=
  match o with
  | SNone => lit "None"
  | SInt n => Str.of_Z n
  | SText s => s
  | SList _ => lit "[...]"
  | SRecord _ _ => lit "{...}"
  end.

Definition scripted (script : list (str + stub)) : Client :=
  {| Obj := stub;
     reply := fun received _ => nth (length received) script (inr SNone);
     get_error := stub_error;
     obj_iter := stub_iter;
     obj_get := stub_get;
     obj_getitem := stub_getitem;
     obj_status_code := stub_status_code;
     obj_contains := stub_contains;
     obj_eq_int := stub_eq_int;
     obj_truth := stub_truth;
     obj_str := stub_str |}.

(** A response to an upload that reports [error] for the whole batch. *)
Definition rejected (error : str) : str + stub :=
  inr (SList [SRecord [(lit "error", SText error)] true]).

(** A response to an upload that reports no error. *)
Definition accepted : str + stub :=
  inr (SList [SRecord [(lit "status_id", SInt 1)] true]).

Definition sample_plugin (l : list ResultRecord) : Plugin :=
  mkPlugin l 1 0 [] false true None true.

Definition sample_result (case status : Z) (comment : str) : ResultRecord :=
  mkResult case status comment (SpecFloat.S754_zero false) None None.

(** Sample sessions. *)
Definition invalid_case_error : str :=
  lit "Field :results contains one or more invalid results (case 17 )".

Definition repeated_case_error : str :=
  lit "case 1 TerraformException: a\ncase 1 TerraformException: b\n".

Definition two_results : State :=
  mkState (sample_plugin [sample_result 18 1 (lit "None");
                          sample_result 17 1 (lit "None")]) [].

(** ** Notions used to state the properties *)

(** Re-indenting a text at its line feeds: four spaces follow each of them. *)
Definition reindent (s : str) : str :=
  flat_map (fun c => if Ascii.eqb c LF then LF :: INDENT else [c]) s.

(** [s] ends with [t]. *)
Definition ends_with (s t : str) : Prop := exists pre, s = pre ++ t.

(** [p] occurs in [s]. *)
Definition occurs_in (p s : str) : Prop := exists a b, s = a ++ p ++ b.

(** Results in non-decreasing order of [case_id]. *)
Definition by_case_id (a b : ResultRecord) : Prop := case_id a <= case_id b.

Definition has_case (k : Z) (r : ResultRecord) : bool := case_id r =? k.

(** No exception of class [Exception] raised by the plugin itself. *)
Definition not_raised {A} (r : exn + A) : Prop :=
  forall msg, r <> inl (Exception msg).

(** The objects of the client answer every request of [reqs], sent in this
    order after [received]. *)
Fixpoint answers_all {client : Client} (received : list Request)
         (reqs : list Request) : Prop :=
  match reqs with
  | [] => True
  | req :: rest =>
      (exists o, reply received req = inr o)
      /\ answers_all (received ++ [req]) rest
  end.

(** [l] is the stable sort of [l0] by case id from which some results may
    have been removed; none is removed when blocked cases are published. *)
Definition derived (publish_blocked : bool) (l0 l : list ResultRecord) : Prop :=
  exists keep,
    l = filter keep (sort_by_case_id l0)
    /\ (publish_blocked = true -> forall r, keep r = true).

Definition evolved (publish_blocked : bool) (l0 l : list ResultRecord) : Prop :=
  l = l0 \/ derived publish_blocked l0 l.

(** Only [self.results] differs between the plugins of two states. *)
Definition same_config (st st' : State) : Prop :=
  self st' = set_results (results (self st')) (self st).

(** An upload of a list of results carries their case ids, in order. *)
Definition uploads (l : list ResultRecord) (req : Request) : Prop :=
  match req with
  | POST _ (BResults data) _ => map e_case_id data = map case_id l
  | _ => True
  end.

(** [post m st Q]: [Q] holds of the state and the outcome of running [m]
    from [st]. *)
Definition post {A} (m : M A) (st : State) (Q : State -> exn + A -> Prop)
  : Prop :=
  Q (fst (m st)) (snd (m st)).

Definition not_batch (req : Request) : Prop :=
  match req with
  | POST _ (BResults _) _ => False
  | _ => True
  end.

Definition adds_only (P : Request -> Prop) (st st' : State) : Prop :=
  forall req, In req (sent st') -> In req (sent st) \/ P req.

(** A method that leaves the plugin as it is, raises no [Exception] and
    sends requests of one kind only. *)
Definition quiet {A} (P : Request -> Prop) (st : State) (m : M A) : Prop :=
  post m st (fun st' r =>
               self st' = self st /\ not_raised r /\ adds_only P st st').

(** Lines 409-430: the results stay, or, when blocked cases are not
    published, some of them are removed. *)
Definition exclude_blocked_Q (st st' : State) (r : exn + unit) : Prop :=
  same_config st st'
  /\ not_raised r
  /\ adds_only not_batch st st'
  /\ (results (self st') = results (self st)
      \/ (publish_blocked (self st) = false
          /\ exists keep, results (self st') = filter keep (results (self st)))).

(** [add_results]: the accumulator is sorted, possibly filtered, and the
    one upload lists the accumulator in its new order. *)
Definition add_results_Q (st st' : State) (r : exn + option str) : Prop :=
  same_config st st'
  /\ derived (publish_blocked (self st)) (results (self st)) (results (self st'))
  /\ not_raised r
  /\ adds_only (uploads (results (self st'))) st st'.

(** The code run by [publish_results_for_run] once the upload has returned
    [error], and by the other methods of the session finish, leaves the
    plugin as it is. *)
Definition publish_results_for_run_Q (st st' : State) (r : exn + unit) : Prop :=
  same_config st st'
  /\ derived (publish_blocked (self st)) (results (self st)) (results (self st'))
  /\ not_raised r.

Definition publish_selected_Q (st st' : State) (r : exn + unit) : Prop :=
  same_config st st'
  /\ evolved (publish_blocked (self st)) (results (self st)) (results (self st'))
  /\ not_raised r
  /\ (testrun_id (self st) <> 0 ->
      derived (publish_blocked (self st)) (results (self st))
              (results (self st'))).




(** The keys of a dict. *)
Definition keys (d : list (str * str)) : list str := map fst d.

(** The dict after the assignments [ms], made in order to [d]. *)
Definition assign (ms d : list (str * str)) : list (str * str) :=
  fold_left (fun d m => dict_set (fst m) (snd m) d) ms d.

(** [(id, msg)] is the last pair of [ms] with the key [id]. *)
Definition last_for (ms : list (str * str)) (id msg : str) : Prop :=
  exists before after,
    ms = before ++ (id, msg) :: after /\ ~ In id (keys after).

(** The request [add_terraform_error_results] sends for an item of the dict. *)
Definition terraform_item_request (run : str) (kv : str * str) : Request :=
  terraform_request run (fst kv) (snd kv).

(** The requests of one call [add_error_results(run, [id], error)]. *)
Definition error_requests (run error : str) (p : Plugin) (id : str)
  : list Request :=
  map (error_request run error (cert_check p))
      (filter (not_in_ids (map strip_C [id])) (results p)).

(** The status [add_result] records for a call. *)
Definition recorded_status (status : Z) (text : str) : Z :=
  if (status =? TESTRAIL_TEST_STATUS.failed) && Str.contains TERRAFORM_MARKER text
  then TESTRAIL_TEST_STATUS.terraformerror else status.

(** ** Identifiers and outcomes *)

(** [PYTEST_TO_TESTRAIL_STATUS] *)
Definition PYTEST_TO_TESTRAIL_STATUS : list (str * Z) :=
  [(lit "passed", TESTRAIL_TEST_STATUS.passed);
   (lit "failed", TESTRAIL_TEST_STATUS.failed);
   (lit "skipped", TESTRAIL_TEST_STATUS.blocked);
   (lit "deferred", TESTRAIL_TEST_STATUS.deferred);
   (lit "NA", TESTRAIL_TEST_STATUS.NA);
   (lit "terraformerror", TESTRAIL_TEST_STATUS.terraformerror)].

(** [d[key]] for a dict with [str] keys *)
Fixpoint dict_getitem {V} (d : list (str * V)) (key : str) : pyerr + V :=
  match d with
  | [] => inl KeyError
  | (k, v) :: d' => if Str.eqb key k then inr v else dict_getitem d' key
  end.

(** [get_test_outcome] *)
Definition get_test_outcome (outcome : str) : pyerr + Z :=
  dict_getitem PYTEST_TO_TESTRAIL_STATUS outcome.

(** [$] without MULTILINE: the end of the text, or the line feed that ends
    it. *)
Definition at_end (s : str) : bool :=
  match s with
  | [] => true
  | [c] => Ascii.eqb c LF
  | _ => false
  end.

(** [re.search]: the first position, from the left, at which [m] matches. *)
Fixpoint search {A} (m : str -> option A) (s : str) : option A :=
  match m s with
  | Some r => Some r
  | None =>
      match s with
      | [] => None
      | _ :: s' => search m s'
      end
  end.

(** [(?P<test_id>[0-9]+$)] at the head of [s]: the text of the group. *)
Definition match_test_id (s : str) : option str :=
  Re.rmatch (Re.Plus true Re.digit) s []
    (fun rest _ =>
       if at_end rest then Some (firstn (length s - length rest) s) else None).

(** The number that a text of decimal digits denotes. *)
Definition digit_value (c : ascii) : Z := Z.of_nat (nat_of_ascii c) - 48.

Definition digits_value (s : str) : Z :=
  fold_left (fun acc c => 10 * acc + digit_value c) s 0.

(** [sys.int_info.default_max_str_digits] *)
Definition INT_MAX_STR_DIGITS : nat := 4300.

(** [int(s)] for a text of decimal digits: the interpreter refuses a text of
    more than [INT_MAX_STR_DIGITS] digits, leading zeros included. *)
Definition int_of_digits (s : str) : pyerr + Z :=
  if (INT_MAX_STR_DIGITS <? length s)%nat then inl ValueError
  else inr (digits_value s).

(** One element of [clean_test_ids]; [re.search] returns [None] when there
    is no match, and [None.groupdict()] raises. *)
Definition clean_test_id (test_id : str) : pyerr + Z :=
  match search match_test_id test_id with
  | Some g => int_of_digits g
  | None => inl AttributeError
  end.

(** [clean_test_ids] *)
Definition clean_test_ids (test_ids : list str) : pyerr + list Z :=
  map_err clean_test_id test_ids.

(** The pattern of [clean_test_defects]: one group, any characters but a
    line feed, as many as possible. *)
Definition DEFECT_RE : Re.regex := Re.Group (Re.Star true Re.dot).

Definition clean_test_defect (defect_id : str) : pyerr + str :=
  match search (Re.match_here DEFECT_RE) defect_id with
  | Some (gs, _) => inr (Re.group 1 gs)
  | None => inl AttributeError
  end.

(** [clean_test_defects] *)
Definition clean_test_defects (defect_ids : list str) : pyerr + list str :=
  map_err clean_test_defect defect_ids.

(** ** [repr] of a string and [str] of a list of strings

    Characters are the code points 0 to 255. *)

Definition SQUOTE : ascii := "039"%char.
Definition DQUOTE : ascii := "034"%char.
Definition BACKSLASH : ascii := "092"%char.

(** [str.isprintable] on one character *)
Definition printable (c : ascii) : bool :=
  let n := nat_of_ascii c in
  ((32 <=? n) && (n <? 127) || (161 <=? n) && negb (n =? 173))%nat.

Definition hex_digit (n : nat) : ascii :=
  nth n (lit "0123456789abcdef") "0"%char.

Definition repr_char (quote c : ascii) : str :=
  if Ascii.eqb c quote || Ascii.eqb c BACKSLASH then [BACKSLASH; c]
  else if Ascii.eqb c "009"%char then lit "\t"
  else if Ascii.eqb c LF then lit "\n"
  else if Ascii.eqb c "013"%char then lit "\r"
  else if printable c then [c]
  else lit "\x" ++ [hex_digit (nat_of_ascii c / 16);
                    hex_digit (nat_of_ascii c mod 16)].

(** [repr(s)] *)
Definition py_repr (s : str) : str :=
  let quote :=
    if existsb (Ascii.eqb SQUOTE) s && negb (existsb (Ascii.eqb DQUOTE) s)
    then DQUOTE else SQUOTE in
  quote :: flat_map (repr_char quote) s ++ [quote].

(** [str(l)] for a list of strings *)
Definition str_of_list (l : list str) : str :=
  lit "[" ++ Str.join (lit ", ") (map py_repr l) ++ lit "]".

(** The [defects] argument of line 243. *)
Definition defects_text (defectids : list str) : pyerr + str :=
  bind_err (clean_test_defects defectids)
    (fun l =>
       inr (Str.replace (lit "'") []
              (Str.replace (lit "]") []
                 (Str.replace (lit "[") [] (str_of_list l))))).

(** ** The report hook *)

(** What the hook reads from a test item.  [testrail_ids] is
    [get_closest_marker('testrail').kwargs.get('ids')], [None] when the item
    has no such marker or the marker no such argument; likewise
    [testrail_defect_ids].  [callspec_params] is [item.callspec.params] when
    the item has a [callspec].  [testrail_processed] is the attribute the
    hook sets. *)
Record Item := mkItem {
  testrail_ids : option (list str);
  testrail_defect_ids : option (list str);
  callspec_params : option Params;
  testrail_processed : bool
}.

(** The report of one phase of a test. *)
Record Report := mkReport {
  when : str;
  outcome : str;
  longrepr : comment_arg;
  rep_duration : PyFloat.float
}.

Definition mark_processed (item : Item) : Item :=
  mkItem (testrail_ids item) (testrail_defect_ids item) (callspec_params item)
         true.

(** The two calls of [add_result] of lines 237-253, with their arguments
    evaluated from left to right. *)
Definition record_report (item : Item) (rep : Report) (testcaseids : list str)
  : M unit :=
  bind (lift (clean_test_ids testcaseids))
    (fun ids =>
       bind (lift (get_test_outcome (outcome rep)))
         (fun status =>
            match testrail_defect_ids item with
            | Some ((_ :: _) as defectids) =>
                bind (lift (defects_text defectids))
                  (fun defects =>
                     add_result ids status (longrepr rep) (Some defects)
                                (rep_duration rep) (callspec_params item))
            | _ =>
                add_result ids status (longrepr rep) None (rep_duration rep)
                           (callspec_params item)
            end)).

(** [pytest_runtest_makereport], after the [yield]: the item and the state
    it leaves. *)
Definition pytest_runtest_makereport (item : Item) (rep : Report) (st : State)
  : Item * (State * (exn + unit)) :=
  match testrail_ids item with
  | Some testcaseids =>
      if (Str.eqb (when rep) (lit "setup") || Str.eqb (when rep) (lit "call"))
         && negb (Nat.eqb (length testcaseids) 0)
      then
        if testrail_processed item then (item, (st, inr tt))
        else (mark_processed item, record_report item rep testcaseids st)
      else (item, (st, inr tt))
  | None => (item, (st, inr tt))
  end.

(** ** Further sample sessions *)

(** A plugin that does not publish blocked cases. *)
Definition cautious_plugin (l : list ResultRecord) : Plugin :=
  mkPlugin l 1 0 [] false false None true.

(** A response that reports an error. *)
Definition failed_query : str + stub :=
  inr (SRecord [(lit "error", SText (lit "Field :run_id is not a valid test run."))]
               true).

(** The tests of a run: the test of case 17 is blocked. *)
Definition tests_of_run : list stub :=
  [SRecord [(lit "case_id", SInt 17); (lit "status_id", SInt 2)] true;
   SRecord [(lit "case_id", SInt 18); (lit "status_id", SInt 1)] true].

Definition two_cautious_results : State :=
  mkState (cautious_plugin [sample_result 18 1 (lit "None");
                            sample_result 17 1 (lit "None")]) [].

(** The entries of the upload of [two_results]. *)
Definition two_entries : list Entry :=
  match map_err (build_entry (self two_results))
                (sort_by_case_id (results (self two_results))) with
  | inr data => data
  | inl _ => []
  end.

Definition unnamed_case_error : str :=
  lit "Field :case_id is not a valid test case.".


(** ** Notions used to state further properties *)

(** The text before the first line feed. *)
Fixpoint first_line (s : str) : str :=
  match s with
  | [] => []
  | c :: s' => if Ascii.eqb c LF then [] else c :: first_line s'
  end.

(** [digits] is a non-empty run of decimal digits at the end of [s], or right
    before the line feed that ends [s]. *)
Definition trailing_digits (s digits : str) : Prop :=
  exists before tail,
    s = before ++ digits ++ tail
    /\ digits <> []
    /\ forallb Re.digit digits = true
    /\ at_end tail = true.

(** [digits] is the whole run: no digit stands right before it. *)
Definition maximal_trailing_digits (s digits : str) : Prop :=
  exists before tail,
    s = before ++ digits ++ tail
    /\ digits <> []
    /\ forallb Re.digit digits = true
    /\ at_end tail = true
    /\ (forall b c, before = b ++ [c] -> Re.digit c = false).

(** A character that [repr] copies and that the three [replace] calls of the
    hook keep. *)
Definition plain_char (c : ascii) : bool :=
  printable c
  && negb (Ascii.eqb c SQUOTE) && negb (Ascii.eqb c BACKSLASH)
  && negb (Ascii.eqb c "["%char) && negb (Ascii.eqb c "]"%char).

(** The record [add_result] appends for one case id. *)
Definition recorded (status : Z) (comment : comment_arg) (defects : option str)
           (duration : PyFloat.float) (tp : option Params) (id : Z)
  : ResultRecord :=
  mkResult id (recorded_status status (comment_text comment))
           (comment_text comment) duration defects tp.

(** ** The upload of [add_results] *)

(** Lines 440-511 of [add_results]: what follows the sorting and the
    exclusion of blocked cases. *)
Definition upload_results {client : Client} (testrun_id : str)
  : M (option str) :=
  bind get_self
    (fun p =>
       bind (lift (map_err (build_entry p) (results p)))
         (fun data =>
            bind (send_post (ADD_RESULTS_URL testrun_id) (BResults data)
                            (Some (cert_check p)))
              (fun response =>
                 bind (lift (obj_iter response))
                   (fun items =>
                      bind (for_each items (report_terraform testrun_id))
                        (fun _ =>
                           match last_bound items with
                           | None => raise (Builtin UnboundLocalError)
                           | Some resp =>
                               let error := get_error resp in
                               if truthy error then
                                 bind (lift (obj_status_code resp))
                                   (fun _ =>
                                      let error := get_error resp in
                                      ret error)
                               else ret None
                           end))))).

(** The plugin after line 407. *)
Definition sorted_state (st : State) : State :=
  mkState (set_results (sort_by_case_id (results (self st))) (self st))
          (sent st).

(** The request of line 495 for the plugin [p]. *)
Definition upload_request (run : str) (p : Plugin) (data : list Entry)
  : Request :=
  POST (ADD_RESULTS_URL run) (BResults data) (Some (cert_check p)).

(** The request of [get_tests]. *)
Definition tests_request (run : str) (p : Plugin) : Request :=
  GET (GET_TESTS_URL run) (Some (cert_check p)).

(** [entry] is the entry built for [r] by the plugin [p]. *)
Definition entry_of (p : Plugin) (r : ResultRecord) (entry : Entry) : Prop :=
  e_case_id entry = case_id r
  /\ e_status_id entry = status_id r
  /\ e_defects entry = defects r
  /\ e_version entry = match version p with [] => None | v => Some v end
  /\ e_comment entry = entry_comment (custom_comment p) r.

(** A request sent by [upload_results] from a state with the plugin [p]: the
    upload of the entries of its results, or a single-result request. *)
Definition upload_or_single (run : str) (p : Plugin) (req : Request) : Prop :=
  not_batch req
  \/ exists data,
      map_err (build_entry p) (results p) = inr data
      /\ req = upload_request run p data.

(** The characters of a decimal numeral. *)
Definition uint_chars (d : Decimal.uint) : str :=
  list_ascii_of_string (NilEmpty.string_of_uint d).

(** One step of [digits_value]. *)
Definition shift_digit (acc : Z) (c : ascii) : Z := 10 * acc + digit_value c.

(** What the three [replace] calls of the hook do to a text. *)
Definition unquoted (s : str) : str :=
  filter (fun x => negb (Ascii.eqb x SQUOTE))
    (filter (fun x => negb (Ascii.eqb x "]"%char))
       (filter (fun x => negb (Ascii.eqb x "["%char)) s)).

(** The phases whose report the hook reads. *)
Definition reported_phase (rep : Report) : bool :=
  Str.eqb (when rep) (lit "setup") || Str.eqb (when rep) (lit "call").

(** The fragments of an error text that name a case id. *)
Definition case_fragments (error : str) : list str :=
  filter (Str.contains (lit "case")) (Str.split (lit ")") error).

(** An outcome that is a return or an exception of the client. *)
Definition client_only (r : exn + unit) : Prop :=
  r = inr tt \/ exists msg, r = inl (ClientRaised msg).

(** * Properties *)

(** ** Strings *)

Module StrFacts.

Lemma eqb_eq (a b : str) : Str.eqb a b = true <-> a = b.
Proof.
  revert b; induction a as [|x a IH]; intros [|y b]; simpl;
    try (split; [discriminate | congruence]); try tauto.
  rewrite andb_true_iff, Ascii.eqb_eq, IH.
  split; [intros [-> ->]; reflexivity | intros H; inversion H; auto].
Qed.

Lemma eqb_refl (a : str) : Str.eqb a a = true.
Proof. apply eqb_eq; reflexivity. Qed.

Lemma startswith_iff (p s : str) :
  Str.startswith p s = true <-> exists t, s = p ++ t.
Proof.
  revert s; induction p as [|x p IH]; intros s; simpl.
  - split; [exists s; reflexivity | reflexivity].
  - destruct s as [|y s].
    + split; [discriminate | intros [t H]; discriminate].
    + rewrite andb_true_iff, Ascii.eqb_eq, IH. split.
      * intros [-> [t ->]]. exists t; reflexivity.
      * intros [t H]. inversion H; subst. split; [reflexivity | eauto].
Qed.

Lemma contains_iff (p s : str) : Str.contains p s = true <-> occurs_in p s.
Proof.
  unfold occurs_in. induction s as [|c s IH].
  - simpl. rewrite orb_false_r, startswith_iff. split.
    + intros [t H]. exists [], t. exact H.
    + intros [a [b H]]. destruct a; [exists b; exact H | discriminate].
  - cbn [Str.contains]. rewrite orb_true_iff, startswith_iff, IH. split.
    + intros [[t H] | [a [b H]]].
      * exists [], t. exact H.
      * exists (c :: a), b. rewrite H. reflexivity.
    + intros [[|x a] [b H]].
      * left. exists b. exact H.
      * right. inversion H; subst. exists a, b. reflexivity.
Qed.

Lemma join_cons (new p q : str) (ps : list str) :
  Str.join new (p :: q :: ps) = p ++ new ++ Str.join new (q :: ps).
Proof. reflexivity. Qed.

(** Replacing one character is a [flat_map]. *)
Lemma replace_char (c : ascii) (new s : str) :
  Str.replace [c] new s
  = flat_map (fun x => if Ascii.eqb x c then new else [x]) s.
Proof.
  unfold Str.replace, Str.split.
  induction s as [|x s IH]; [reflexivity|].
  cbn [Str.scan Str.startswith length Nat.sub flat_map].
  rewrite andb_true_r, (Ascii.eqb_sym c x).
  destruct (Str.scan [c] s 0) as [p ps] eqn:E.
  destruct (Ascii.eqb x c).
  - rewrite <- IH. reflexivity.
  - rewrite <- IH. destruct ps; reflexivity.
Qed.

Lemma replace_reindent (s : str) :
  Str.replace [LF] (LF :: INDENT) s = reindent s.
Proof. apply replace_char. Qed.

Lemma reindent_without_LF (s : str) : ~ In LF s -> reindent s = s.
Proof.
  unfold reindent. induction s as [|c s IH]; intros H; [reflexivity|].
  cbn [flat_map]. destruct (Ascii.eqb c LF) eqn:E.
  - apply Ascii.eqb_eq in E. exfalso. apply H. left. auto.
  - cbn [app]. f_equal. apply IH. intros Hin. apply H. right. exact Hin.
Qed.

Lemma last_chars_short (n : nat) (s : str) :
  (length s <= n)%nat -> Str.last_chars n s = s.
Proof.
  intros H. unfold Str.last_chars.
  replace (length s - n)%nat with 0%nat by lia. reflexivity.
Qed.

Lemma last_chars_long (n : nat) (s : str) :
  (n < length s)%nat ->
  s = firstn (length s - n) s ++ Str.last_chars n s
  /\ length (Str.last_chars n s) = n.
Proof.
  intros H. unfold Str.last_chars. split.
  - symmetry. apply firstn_skipn.
  - rewrite length_skipn. lia.
Qed.

End StrFacts.

(** ** Recording results *)

Lemma recorded_status_idem (status : Z) (text : str) :
  recorded_status (recorded_status status text) text = recorded_status status text.
Proof.
  unfold recorded_status.
  destruct ((status =? TESTRAIL_TEST_STATUS.failed)
            && Str.contains TERRAFORM_MARKER text) eqn:E; [reflexivity|].
  rewrite E. reflexivity.
Qed.

Lemma add_result_loop_closed (test_ids : list Z) (status : Z)
      (comment : comment_arg) (defects : option str) (duration : PyFloat.float)
      (tp : option Params) (acc : list ResultRecord) :
  add_result_loop test_ids status comment defects duration tp acc
  = acc ++ map (fun id => mkResult id
                            (recorded_status status (comment_text comment))
                            (comment_text comment) duration defects tp)
               test_ids.
Proof.
  revert status comment acc.
  induction test_ids as [|id ids IH]; intros status comment acc.
  - simpl. rewrite app_nil_r. reflexivity.
  - cbn [add_result_loop map].
    assert (Htext : comment_text
              match comment with
              | CommentStr _ => comment
              | CommentObj _ => CommentStr (comment_text comment)
              end = comment_text comment) by (destruct comment; reflexivity).
    rewrite IH, Htext.
    change (if (status =? 5) && Str.contains TERRAFORM_MARKER (comment_text comment)
            then 8 else status)
      with (recorded_status status (comment_text comment)).
    rewrite recorded_status_idem, <- app_assoc. reflexivity.
Qed.



(** ** The comment of an uploaded entry *)

Lemma build_entry_comment (p : Plugin) (r : ResultRecord) (e : Entry) :
  build_entry p r = inr e -> e_comment e = entry_comment (custom_comment p) r.
Proof.
  unfold build_entry, bind_err.
  destruct (entry_elapsed (duration r)); [discriminate|].
  intros H. inversion H. reflexivity.
Qed.

Lemma build_entry_case_id (p : Plugin) (r : ResultRecord) (e : Entry) :
  build_entry p r = inr e -> e_case_id e = case_id r.
Proof.
  unfold build_entry, bind_err.
  destruct (entry_elapsed (duration r)); [discriminate|].
  intros H. inversion H. reflexivity.
Qed.

Lemma entry_comment_nonempty (custom : option str) (r : ResultRecord) :
  comment r <> [] ->
  exists head, entry_comment custom r = Some (head ++ pytest_result_text (comment r)).
Proof.
  intros Hne. unfold entry_comment.
  destruct (comment r) as [|c rest] eqn:Ec; [congruence|].
  destruct custom as [[|x custom]|]; cbv zeta.
  - exists (parametrize_text r). reflexivity.
  - exists (parametrize_text r ++ (x :: custom) ++ [LF]).
    rewrite <- !app_assoc. reflexivity.
  - exists (parametrize_text r). reflexivity.
Qed.

(** C10. An entry built for a result whose comment is the empty string
    carries the configured custom comment (possibly [None]) as its comment;
    the heading, the indentation and the truncation are applied exactly when
    the comment is not empty. *)
Theorem empty_comment_gets_custom_comment (p : Plugin) (r : ResultRecord)
        (e : Entry) :
  build_entry p r = inr e ->
  (comment r = [] -> e_comment e = custom_comment p)
  /\ (comment r <> [] ->
      exists head, e_comment e = Some (head ++ pytest_result_text (comment r))).
Proof.
  intros Hb. rewrite (build_entry_comment _ _ _ Hb). split.
  - intros Hc. unfold entry_comment. rewrite Hc. reflexivity.
  - apply entry_comment_nonempty.
Qed.

Lemma empty_comment_gets_custom_comment_witness :
  let p := mkPlugin [] 1 0 [] false true (Some (lit "nightly")) true in
  let r := mkResult 12 1 [] PyFloat.f_2_6 None
                    (Some (mkParams true (lit "{'n': 3}"))) in
  exists e, build_entry p r = inr e /\ e_comment e = Some (lit "nightly").
Proof.
  intros p r. eexists. split; [reflexivity|].
  apply (empty_comment_gets_custom_comment p r); reflexivity.
Defined.

(** C5 (as the code has it). For a non-empty comment the uploaded text ends
    with four spaces followed by the re-indented comment; when the comment is
    longer than the limit, only its last [COMMENT_SIZE_LIMIT] characters are
    kept, re-indented, and the truncation marker stands right before them;
    otherwise there is no marker.  The tail is the original text itself when it
    has no line feed. *)
Theorem uploaded_comment_truncation (p : Plugin) (r : ResultRecord) (e : Entry) :
  build_entry p r = inr e ->
  comment r <> [] ->
  exists head up,
    e_comment e = Some up
    /\ ((COMMENT_SIZE_LIMIT < length (comment r))%nat ->
        exists dropped tail,
          comment r = dropped ++ tail
          /\ length tail = COMMENT_SIZE_LIMIT
          /\ up = head ++ PYTEST_RESULT_HEADING ++ TRUNCATION_MARKER ++ INDENT
                       ++ reindent tail
          /\ (~ In LF tail -> ends_with up tail))
    /\ ((length (comment r) <= COMMENT_SIZE_LIMIT)%nat ->
        up = head ++ PYTEST_RESULT_HEADING ++ INDENT ++ reindent (comment r)).
Proof.
  intros Hb Hne. rewrite (build_entry_comment _ _ _ Hb).
  destruct (entry_comment_nonempty (custom_comment p) r Hne) as [head Hh].
  exists head. eexists. split; [exact Hh|].
  unfold pytest_result_text. rewrite StrFacts.replace_reindent. split.
  - intros Hlong.
    destruct (StrFacts.last_chars_long _ _ Hlong) as [Hsplit Hlen].
    exists (firstn (length (comment r) - COMMENT_SIZE_LIMIT) (comment r)),
           (Str.last_chars COMMENT_SIZE_LIMIT (comment r)).
    split; [exact Hsplit|]. split; [exact Hlen|].
    apply Nat.ltb_lt in Hlong. rewrite Hlong. split; [reflexivity|].
    intros HLF. rewrite (StrFacts.reindent_without_LF _ HLF).
    eexists (head ++ PYTEST_RESULT_HEADING ++ TRUNCATION_MARKER ++ INDENT).
    rewrite <- !app_assoc. reflexivity.
  - intros Hshort. rewrite (StrFacts.last_chars_short _ _ Hshort).
    apply Nat.ltb_ge in Hshort. rewrite Hshort. reflexivity.
Qed.

Lemma uploaded_comment_truncation_witness :
  let p := sample_plugin [] in
  let r := sample_result 3 5 (lit "assert 1 == 2") in
  let e := mkEntry 5 3 None None (entry_comment None r) None in
  exists head up,
    e_comment e = Some up
    /\ ((COMMENT_SIZE_LIMIT < length (comment r))%nat ->
        exists dropped tail,
          comment r = dropped ++ tail
          /\ length tail = COMMENT_SIZE_LIMIT
          /\ up = head ++ PYTEST_RESULT_HEADING ++ TRUNCATION_MARKER ++ INDENT
                       ++ reindent tail
          /\ (~ In LF tail -> ends_with up tail))
    /\ ((length (comment r) <= COMMENT_SIZE_LIMIT)%nat ->
        up = head ++ PYTEST_RESULT_HEADING ++ INDENT ++ reindent (comment r)).
Proof.
  intros p r e.
  apply (uploaded_comment_truncation p r e); [reflexivity | discriminate].
Defined.

(** A comment of 4002 characters with a line feed among its last 4000: the
    uploaded text does not end with the last 4000 characters of the original,
    because four spaces follow the line feed. *)
Lemma truncated_tail_is_not_the_original :
  let r := sample_result 1 5 (repeat "a"%char 4000 ++ [LF; "b"%char]) in
  exists e up,
    build_entry (sample_plugin []) r = inr e
    /\ e_comment e = Some up
    /\ (COMMENT_SIZE_LIMIT < length (comment r))%nat
    /\ ~ ends_with up (Str.last_chars COMMENT_SIZE_LIMIT (comment r)).
Proof.
  intros r.
  exists (mkEntry 5 1 None None (entry_comment None r) None).
  exists (PYTEST_RESULT_HEADING ++ TRUNCATION_MARKER ++ INDENT
          ++ repeat "a"%char 3998 ++ [LF] ++ INDENT ++ ["b"%char]).
  split; [reflexivity|]. split; [vm_compute; reflexivity|].
  split; [apply Nat.ltb_lt; vm_compute; reflexivity|].
  intros [pre H].
  apply (f_equal (fun l => firstn 2 (rev l))) in H.
  rewrite (rev_app_distr pre) in H.
  vm_compute in H. discriminate H.
Qed.

(** ** The elapsed time of an uploaded entry *)

Module FloatFacts.
Import PyFloat.

Lemma pow_pos (k : Z) : 0 <= k -> 0 < 2 ^ k.
Proof. intros H. apply Z.pow_pos_nonneg; lia. Qed.

Lemma magnitude_pos (m : positive) (e : Z) : (0 < magnitude m e)%Q.
Proof.
  unfold magnitude. destruct (0 <=? e) eqn:E.
  - apply Z.leb_le in E. pose proof (pow_pos e E).
    unfold Qlt, inject_Z; cbn [Qnum Qden]. nia.
  - unfold Qlt; cbn [Qnum Qden]. lia.
Qed.

Lemma lt_one_iff (m : positive) (e : Z) :
  lt_one (SpecFloat.S754_finite false m e) = true <-> (magnitude m e < 1)%Q.
Proof.
  unfold lt_one, magnitude. destruct (0 <=? e) eqn:E.
  - apply Z.leb_le in E. pose proof (pow_pos e E).
    unfold Qlt, inject_Z; cbn [Qnum Qden]. split; [discriminate | nia].
  - apply Z.leb_gt in E. pose proof (pow_pos (- e) ltac:(lia)) as Hd.
    rewrite Z.ltb_lt. unfold Qlt; cbn [Qnum Qden].
    rewrite Z2Pos.id by exact Hd. lia.
Qed.

(** [round_half_even] is within one half of the number it rounds. *)
Lemma round_half_even_nearest (m : positive) (e : Z) :
  (Qabs (magnitude m e - inject_Z (round_half_even m e)) <= 1 # 2)%Q.
Proof.
  apply Qabs_Qle_condition.
  unfold round_half_even, magnitude. destruct (0 <=? e) eqn:E.
  - unfold Qle, Qminus, Qplus, Qopp, inject_Z; cbn [Qnum Qden]. lia.
  - apply Z.leb_gt in E. pose proof (pow_pos (- e) ltac:(lia)) as Hd.
    set (d := 2 ^ (- e)) in *.
    pose proof (Z.div_mod (Zpos m) d ltac:(lia)) as Hdm.
    pose proof (Z.mod_pos_bound (Zpos m) d Hd) as Hr.
    set (q := Zpos m / d) in *. set (r := Zpos m mod d) in *.
    assert (Hq : forall n, (- (1 # 2) <= (Zpos m # Z.to_pos d) - inject_Z n
                            /\ (Zpos m # Z.to_pos d) - inject_Z n <= 1 # 2)%Q
                           <-> - d <= 2 * (Zpos m - n * d) <= d).
    { intros n. unfold Qle, Qminus, Qplus, Qopp, inject_Z; cbn [Qnum Qden].
      rewrite !Pos2Z.inj_mul, !Z2Pos.id by exact Hd. lia. }
    destruct (2 * r <? d) eqn:E1; [apply Z.ltb_lt in E1; apply Hq; nia|].
    apply Z.ltb_ge in E1.
    destruct (d <? 2 * r) eqn:E2; [apply Z.ltb_lt in E2; apply Hq; nia|].
    apply Z.ltb_ge in E2.
    destruct (Z.even q); apply Hq; nia.
Qed.

(** The three sample durations are the doubles next to 0.4, 1.4 and 2.6:
    each is within half a unit in the last place of the decimal. *)
Example sample_durations :
  (Qabs (magnitude 7205759403792794 (-54) - (4 # 10)) <= 1 # 2 ^ 55)%Q
  /\ (Qabs (magnitude 6305039478318694 (-52) - (14 # 10)) <= 1 # 2 ^ 53)%Q
  /\ (Qabs (magnitude 5854679515581645 (-51) - (26 # 10)) <= 1 # 2 ^ 52)%Q.
Proof.
  repeat split; apply Qabs_Qle_condition; split; vm_compute; discriminate.
Qed.

End FloatFacts.

Lemma build_entry_elapsed (p : Plugin) (r : ResultRecord) (x : option str) :
  entry_elapsed (duration r) = inr x ->
  exists e, build_entry p r = inr e /\ e_elapsed e = x.
Proof.
  intros H. unfold build_entry. rewrite H. simpl. eexists. split; reflexivity.
Qed.

(** C7. For a result whose duration is a finite, non-negative number of
    seconds [q]: no [elapsed] field when [q] is 0; ["1s"] when [q] is positive
    and below 1; otherwise a whole number of seconds within one half of [q],
    followed by the unit.  The durations 0.4, 1.4 and 2.6 give ["1s"], ["1s"]
    and ["3s"]. *)
Theorem elapsed_rounding (p : Plugin) (r : ResultRecord) (q : Q) :
  PyFloat.to_Q (duration r) = Some q ->
  (0 <= q)%Q ->
  (exists e,
      build_entry p r = inr e
      /\ ((q == 0)%Q -> e_elapsed e = None)
      /\ ((0 < q)%Q -> (q < 1)%Q -> e_elapsed e = Some (lit "1s"))
      /\ ((1 <= q)%Q ->
          exists n, e_elapsed e = Some (Str.of_Z n ++ lit "s")
                    /\ (Qabs (q - inject_Z n) <= 1 # 2)%Q))
  /\ entry_elapsed PyFloat.f_0_4 = inr (Some (lit "1s"))
  /\ entry_elapsed PyFloat.f_1_4 = inr (Some (lit "1s"))
  /\ entry_elapsed PyFloat.f_2_6 = inr (Some (lit "3s")).
Proof.
  intros Hq Hpos. split; [|repeat split; reflexivity].
  destruct (duration r) as [s | s | | s m e] eqn:Ed; simpl in Hq;
    try discriminate; inversion Hq; subst q; clear Hq.
  - destruct (build_entry_elapsed p r None) as [en [Hb He]].
    { rewrite Ed. reflexivity. }
    exists en. split; [exact Hb|]. split; [intros _; exact He|]. split.
    + intros H. exfalso. revert H. apply Qlt_irrefl.
    + intros H. exfalso. revert H. apply Qlt_not_le. reflexivity.
  - pose proof (FloatFacts.magnitude_pos m e) as Hm.
    destruct s.
    { exfalso. apply (Qlt_not_le _ _ Hm).
      apply Qopp_le_compat in Hpos. rewrite Qopp_involutive in Hpos. exact Hpos. }
    destruct (PyFloat.lt_one (SpecFloat.S754_finite false m e)) eqn:El.
    + destruct (build_entry_elapsed p r (Some (lit "1s"))) as [en [Hb He]].
      { rewrite Ed. unfold entry_elapsed. rewrite El. reflexivity. }
      exists en. split; [exact Hb|]. split; [|split].
      * intros H. exfalso. rewrite H in Hm. revert Hm. apply Qlt_irrefl.
      * intros _ _. exact He.
      * intros H. exfalso. apply FloatFacts.lt_one_iff in El.
        revert H. apply Qlt_not_le. exact El.
    + destruct (build_entry_elapsed p r
                  (Some (Str.of_Z (PyFloat.round_half_even m e) ++ lit "s")))
        as [en [Hb He]].
      { rewrite Ed. unfold entry_elapsed. rewrite El. reflexivity. }
      exists en. split; [exact Hb|]. split; [|split].
      * intros H. exfalso. rewrite H in Hm. revert Hm. apply Qlt_irrefl.
      * intros _ H. apply FloatFacts.lt_one_iff in H. congruence.
      * intros _. exists (PyFloat.round_half_even m e). split; [exact He|].
        apply FloatFacts.round_half_even_nearest.
Qed.

Lemma elapsed_rounding_witness :
  let r := mkResult 4 1 [] (SpecFloat.S754_finite false 5629499534213120 (-51))
                    None None in
  let q := (5629499534213120 # 2251799813685248)%Q in
  exists e n,
    build_entry (sample_plugin []) r = inr e
    /\ e_elapsed e = Some (Str.of_Z n ++ lit "s")
    /\ (Qabs (q - inject_Z n) <= 1 # 2)%Q.
Proof.
  intros r q.
  destruct (elapsed_rounding (sample_plugin []) r q) as [[e [Hb [_ [_ Hr]]]] _].
  - reflexivity.
  - vm_compute. discriminate.
  - destruct Hr as [n [He Hn]]; [vm_compute; discriminate|].
    exists e, n. split; [exact Hb|]. split; [exact He | exact Hn].
Defined.
(** ** Sorting by case id *)

Module SortFacts.

Lemma insert_perm (x : ResultRecord) (l : list ResultRecord) :
  Permutation (insert_by_case_id x l) (x :: l).
Proof.
  induction l as [|y l IH]; simpl; [reflexivity|].
  destruct (case_id x <=? case_id y); [reflexivity|].
  rewrite IH. apply perm_swap.
Qed.

Lemma sort_perm (l : list ResultRecord) : Permutation (sort_by_case_id l) l.
Proof.
  induction l as [|x l IH]; simpl; [reflexivity|].
  rewrite insert_perm, IH. reflexivity.
Qed.

Lemma insert_sorted (x : ResultRecord) (l : list ResultRecord) :
  StronglySorted by_case_id l ->
  StronglySorted by_case_id (insert_by_case_id x l).
Proof.
  induction 1 as [|y l Hl IH Hy]; simpl.
  - constructor; constructor.
  - destruct (case_id x <=? case_id y) eqn:E.
    + apply Z.leb_le in E. constructor.
      * constructor; assumption.
      * constructor; [exact E|].
        eapply Forall_impl; [|exact Hy]. unfold by_case_id. intros; lia.
    + apply Z.leb_gt in E. constructor; [exact IH|].
      rewrite insert_perm.
      constructor; [unfold by_case_id; lia | exact Hy].
Qed.

Lemma sort_sorted (l : list ResultRecord) :
  StronglySorted by_case_id (sort_by_case_id l).
Proof.
  induction l as [|x l IH]; simpl; [constructor | apply insert_sorted, IH].
Qed.

(** Insertion keeps the order among the results of one case. *)
Lemma filter_insert (k : Z) (x : ResultRecord) (l : list ResultRecord) :
  filter (has_case k) (insert_by_case_id x l) = filter (has_case k) (x :: l).
Proof.
  induction l as [|y l IH]; [reflexivity|].
  cbn [insert_by_case_id].
  destruct (case_id x <=? case_id y) eqn:E; [reflexivity|].
  apply Z.leb_gt in E. cbn [filter] in *. rewrite IH.
  unfold has_case.
  destruct (case_id x =? k) eqn:Ex; [|reflexivity].
  apply Z.eqb_eq in Ex.
  destruct (case_id y =? k) eqn:Ey; [|reflexivity].
  apply Z.eqb_eq in Ey. lia.
Qed.

Lemma sort_stable (k : Z) (l : list ResultRecord) :
  filter (has_case k) (sort_by_case_id l) = filter (has_case k) l.
Proof.
  induction l as [|x l IH]; [reflexivity|].
  cbn [sort_by_case_id fold_right].
  change (fold_right insert_by_case_id [] l) with (sort_by_case_id l).
  rewrite filter_insert. cbn [filter]. rewrite IH. reflexivity.
Qed.

Lemma sort_of_sorted (l : list ResultRecord) :
  StronglySorted by_case_id l -> sort_by_case_id l = l.
Proof.
  induction 1 as [|x l Hl IH Hx]; [reflexivity|].
  cbn [sort_by_case_id fold_right].
  change (fold_right insert_by_case_id [] l) with (sort_by_case_id l).
  rewrite IH. destruct l as [|y l]; [reflexivity|].
  cbn [insert_by_case_id]. inversion Hx as [|? ? Hxy _]; subst.
  unfold by_case_id in Hxy. apply Z.leb_le in Hxy. rewrite Hxy. reflexivity.
Qed.

Lemma filter_sorted (keep : ResultRecord -> bool) (l : list ResultRecord) :
  StronglySorted by_case_id l -> StronglySorted by_case_id (filter keep l).
Proof.
  induction 1 as [|x l Hl IH Hx]; simpl; [constructor|].
  destruct (keep x); [|exact IH].
  constructor; [exact IH|].
  apply Forall_forall. intros y Hy. apply filter_In in Hy.
  rewrite Forall_forall in Hx. apply Hx, Hy.
Qed.

Lemma filter_comm {A} (f g : A -> bool) (l : list A) :
  filter f (filter g l) = filter g (filter f l).
Proof.
  induction l as [|x l IH]; [reflexivity|]. simpl.
  destruct (f x) eqn:Ef, (g x) eqn:Eg; simpl; rewrite ?Ef, ?Eg, IH; reflexivity.
Qed.

Lemma filter_and {A} (f g : A -> bool) (l : list A) :
  filter f (filter g l) = filter (fun x => g x && f x) l.
Proof.
  induction l as [|x l IH]; [reflexivity|]. simpl.
  destruct (g x) eqn:Eg; simpl; [destruct (f x)|]; rewrite IH; reflexivity.
Qed.

Lemma filter_all {A} (f : A -> bool) (l : list A) :
  (forall x, f x = true) -> filter f l = l.
Proof.
  intros H. induction l as [|x l IH]; [reflexivity|].
  simpl. rewrite H, IH. reflexivity.
Qed.

Lemma derived_sorted (pb : bool) (l0 l : list ResultRecord) :
  derived pb l0 l -> StronglySorted by_case_id l.
Proof.
  intros [keep [-> _]]. apply filter_sorted, sort_sorted.
Qed.

Lemma derived_sort (pb : bool) (l : list ResultRecord) :
  derived pb l (sort_by_case_id l).
Proof.
  exists (fun _ => true). split; [|reflexivity].
  symmetry. apply filter_all. reflexivity.
Qed.

Lemma derived_filter (keep : ResultRecord -> bool) (l0 l : list ResultRecord) :
  derived false l0 l -> derived false l0 (filter keep l).
Proof.
  intros [k [-> _]]. exists (fun x => k x && keep x).
  split; [apply filter_and | discriminate].
Qed.

Lemma derived_trans (pb : bool) (l0 l1 l2 : list ResultRecord) :
  derived pb l0 l1 -> derived pb l1 l2 -> derived pb l0 l2.
Proof.
  intros H1 [k2 [-> Hk2]].
  rewrite (sort_of_sorted l1 (derived_sorted pb l0 l1 H1)).
  destruct H1 as [k1 [-> Hk1]].
  exists (fun x => k1 x && k2 x). split; [apply filter_and|].
  intros Hpb r. rewrite (Hk1 Hpb), (Hk2 Hpb). reflexivity.
Qed.

Lemma evolved_trans (pb : bool) (l0 l1 l2 : list ResultRecord) :
  evolved pb l0 l1 -> evolved pb l1 l2 -> evolved pb l0 l2.
Proof.
  intros [-> | H1] [-> | H2]; try (left; reflexivity);
    try (right; assumption).
  right. eapply derived_trans; eassumption.
Qed.

End SortFacts.

(** ** Reasoning about plugin methods *)

Section Run.
Context {client : Client}.

Lemma post_ret {A} (a : A) st (Q : State -> exn + A -> Prop) :
  Q st (inr a) -> post (ret a) st Q.
Proof. exact (fun H => H). Qed.

Lemma post_raise {A} (e : exn) st (Q : State -> exn + A -> Prop) :
  Q st (inl e) -> post (raise e) st Q.
Proof. exact (fun H => H). Qed.

Lemma post_bind {A B} (m : M A) (k : A -> M B) st
      (Q : State -> exn + B -> Prop) :
  post m st (fun st1 r1 =>
               match r1 with
               | inr a => post (k a) st1 Q
               | inl e => Q st1 (inl e)
               end) ->
  post (bind m k) st Q.
Proof.
  unfold post, bind. destruct (m st) as [st1 [e | a]]; simpl; auto.
Qed.

Lemma post_conseq {A} (m : M A) st (Q Q' : State -> exn + A -> Prop) :
  post m st Q -> (forall st' r, Q st' r -> Q' st' r) -> post m st Q'.
Proof. unfold post. auto. Qed.

Lemma post_get_self st (Q : State -> exn + Plugin -> Prop) :
  Q st (inr (self st)) -> post get_self st Q.
Proof. exact (fun H => H). Qed.

Lemma post_put_results l st (Q : State -> exn + unit -> Prop) :
  Q (mkState (set_results l (self st)) (sent st)) (inr tt) ->
  post (put_results l) st Q.
Proof. exact (fun H => H). Qed.

Lemma post_lift {A} (x : pyerr + A) st (Q : State -> exn + A -> Prop) :
  match x with
  | inr a => Q st (inr a)
  | inl e => Q st (inl (Builtin e))
  end ->
  post (lift x) st Q.
Proof. unfold post, lift. destruct x; auto. Qed.

Lemma post_send req st (Q : State -> exn + Obj -> Prop) :
  (forall r, not_raised r -> Q (mkState (self st) (sent st ++ [req])) r) ->
  post (send req) st Q.
Proof.
  intros H. unfold post, send.
  destruct (reply (sent st) req); simpl; apply H; intros msg; discriminate.
Qed.

Lemma post_for_each {A} (l : list A) (body : A -> M unit)
      (I : State -> Prop) st (Q : State -> exn + unit -> Prop) :
  I st ->
  (forall x st1, I st1 ->
                 post (body x) st1
                      (fun st2 r => match r with
                                    | inr _ => I st2
                                    | inl e => Q st2 (inl e)
                                    end)) ->
  (forall st2, I st2 -> Q st2 (inr tt)) ->
  post (for_each l body) st Q.
Proof.
  intros HI Hbody Hend. revert st HI.
  induction l as [|x l IH]; intros st HI.
  - apply Hend, HI.
  - cbn [for_each]. apply post_bind.
    eapply post_conseq; [apply Hbody, HI|].
    intros st' [e | []]; cbn beta iota; [auto | apply IH].
Qed.

Lemma adds_only_refl P st : adds_only P st st.
Proof. intros req H. left. exact H. Qed.

Lemma adds_only_send P st st1 req :
  adds_only P st st1 -> P req ->
  adds_only P st (mkState (self st1) (sent st1 ++ [req])).
Proof.
  intros H Hp r Hr. simpl in Hr. apply in_app_iff in Hr.
  destruct Hr as [Hr | [<- | []]]; [apply H, Hr | right; exact Hp].
Qed.

Lemma adds_only_trans P st st1 st2 :
  adds_only P st st1 -> adds_only P st1 st2 -> adds_only P st st2.
Proof.
  intros H1 H2 req Hr. destruct (H2 req Hr) as [H | H]; [apply H1, H | right; exact H].
Qed.

Lemma adds_only_impl (P P' : Request -> Prop) st st1 :
  (forall req, P req -> P' req) -> adds_only P st st1 -> adds_only P' st st1.
Proof.
  intros Hi H req Hr. destruct (H req Hr); [left | right]; auto.
Qed.

Lemma not_raised_inr {A} (a : A) : not_raised (inr a : exn + A).
Proof. intros msg; discriminate. Qed.

Lemma not_raised_builtin {A} (e : pyerr) : not_raised (inl (Builtin e) : exn + A).
Proof. intros msg; discriminate. Qed.

Lemma not_raised_inl {A B} (e : exn) :
  not_raised (inl e : exn + A) -> not_raised (inl e : exn + B).
Proof. intros H msg E. apply (H msg). congruence. Qed.

Lemma quiet_send P req st :
  P req -> quiet P st (send req).
Proof.
  intros Hp. apply post_send. intros r Hr. repeat split; [exact Hr|].
  apply adds_only_send; [apply adds_only_refl | exact Hp].
Qed.

Lemma quiet_bind {A B} P (m : M A) (k : A -> M B) st :
  quiet P st m ->
  (forall a st1, self st1 = self st -> quiet P st1 (k a)) ->
  quiet P st (bind m k).
Proof.
  unfold quiet. intros Hm Hk. apply post_bind. eapply post_conseq; [exact Hm|].
  intros st1 [e | a] [Hs [Hr Ha]]; cbn beta iota.
  - repeat split; [exact Hs | apply (not_raised_inl _ Hr) | exact Ha].
  - eapply post_conseq; [apply (Hk a st1 Hs)|].
    intros st2 r [Hs2 [Hr2 Ha2]]. split; [congruence|]. split; [exact Hr2|].
    eapply adds_only_trans; eassumption.
Qed.

Lemma quiet_ret {A} P (a : A) st : quiet P st (ret a).
Proof.
  apply post_ret. repeat split; [apply not_raised_inr | apply adds_only_refl].
Qed.

Lemma quiet_lift {A} P (x : pyerr + A) st : quiet P st (lift x).
Proof.
  apply post_lift.
  destruct x; (repeat split;
               [first [apply not_raised_inr | apply not_raised_builtin]
               | apply adds_only_refl]).
Qed.

Lemma quiet_raise_builtin {A} P (e : pyerr) st :
  quiet P st (raise (Builtin e) : M A).
Proof.
  apply post_raise. repeat split; [apply not_raised_builtin | apply adds_only_refl].
Qed.

Lemma quiet_get_self P st : quiet P st get_self.
Proof.
  apply post_get_self. repeat split; [apply not_raised_inr | apply adds_only_refl].
Qed.

Lemma quiet_for_each {A} P (l : list A) (body : A -> M unit) st :
  (forall x st1, self st1 = self st -> quiet P st1 (body x)) ->
  quiet P st (for_each l body).
Proof.
  unfold quiet. intros Hbody.
  apply (post_for_each l body
           (fun st1 => self st1 = self st /\ adds_only P st st1)).
  - split; [reflexivity | apply adds_only_refl].
  - intros x st1 [Hs Ha]. eapply post_conseq; [apply (Hbody x st1 Hs)|].
    intros st2 [e | []] [Hs2 [Hr2 Ha2]]; cbn beta iota.
    + split; [congruence|]. split; [exact Hr2|].
      eapply adds_only_trans; eassumption.
    + split; [congruence | eapply adds_only_trans; eassumption].
  - intros st2 [Hs Ha]. repeat split; [exact Hs | apply not_raised_inr | exact Ha].
Qed.

Lemma quiet_impl {A} (P P' : Request -> Prop) st (m : M A) :
  (forall req, P req -> P' req) -> quiet P st m -> quiet P' st m.
Proof.
  unfold quiet. intros Hi H. eapply post_conseq; [exact H|].
  intros st' r [Hs [Hr Ha]]. repeat split; [exact Hs | exact Hr |].
  eapply adds_only_impl; eassumption.
Qed.

Lemma quiet_add_terraform_error_results run id msg st :
  quiet not_batch st (add_terraform_error_results run id msg).
Proof.
  unfold add_terraform_error_results.
  apply quiet_bind; [apply quiet_send; exact I | intros; apply quiet_ret].
Qed.

Lemma quiet_report_terraform run resp st :
  quiet not_batch st (report_terraform run resp).
Proof.
  unfold report_terraform.
  apply quiet_bind; [apply quiet_lift | intros comment st1 _].
  apply quiet_bind; [apply quiet_lift | intros [|] st2 _].
  - apply quiet_bind; [apply quiet_lift | intros].
    apply quiet_add_terraform_error_results.
  - apply quiet_ret.
Qed.

Lemma quiet_get_tests run st : quiet not_batch st (get_tests run).
Proof.
  unfold get_tests, send_get.
  apply quiet_bind; [apply quiet_get_self | intros p st1 _].
  apply quiet_bind; [apply quiet_send; exact I | intros response st2 _].
  destruct (truthy (get_error response)); apply quiet_ret.
Qed.

Lemma quiet_add_error_results run ids error st :
  quiet (fun _ => True) st (add_error_results run ids error).
Proof.
  unfold add_error_results.
  apply quiet_bind; [apply quiet_get_self | intros p st1 _].
  apply quiet_for_each. intros r st2 _.
  apply quiet_bind; [apply quiet_send; exact I | intros; apply quiet_ret].
Qed.

Lemma quiet_get_available_testruns plan st :
  quiet (fun _ => True) st (get_available_testruns plan).
Proof.
  unfold get_available_testruns, send_get.
  apply quiet_bind; [apply quiet_get_self | intros p st1 _].
  apply quiet_bind; [apply quiet_send; exact I | intros response st2 _].
  destruct (truthy (get_error response)); [apply quiet_ret|].
  apply quiet_bind; [apply quiet_lift | intros; apply quiet_lift].
Qed.

Lemma quiet_close_test_run run st : quiet (fun _ => True) st (close_test_run run).
Proof.
  unfold close_test_run, send_post.
  apply quiet_bind; [apply quiet_get_self | intros p st1 _].
  apply quiet_bind; [apply quiet_send; exact I | intros; apply quiet_ret].
Qed.

Lemma quiet_close_test_plan plan st :
  quiet (fun _ => True) st (close_test_plan plan).
Proof.
  unfold close_test_plan, send_post.
  apply quiet_bind; [apply quiet_get_self | intros p st1 _].
  apply quiet_bind; [apply quiet_send; exact I | intros; apply quiet_ret].
Qed.

Lemma quiet_close_selected st : quiet (fun _ => True) st close_selected.
Proof.
  unfold close_selected.
  apply quiet_bind; [apply quiet_get_self | intros p st1 _].
  destruct (close_on_complete p); [|apply quiet_ret].
  destruct (negb (testrun_id p =? 0)); [apply quiet_close_test_run|].
  destruct (negb (testplan_id p =? 0));
    [apply quiet_close_test_plan | apply quiet_ret].
Qed.

Lemma map_err_build_entry p l data :
  map_err (build_entry p) l = inr data ->
  map e_case_id data = map case_id l.
Proof.
  revert data. induction l as [|r l IH]; intros data H; cbn in H.
  - inversion H. reflexivity.
  - unfold bind_err in H at 1.
    destruct (build_entry p r) as [e | en] eqn:Eb; [discriminate|].
    unfold bind_err in H.
    destruct (map_err (build_entry p) l) as [e | ens]; [discriminate|].
    inversion H; subst. cbn. rewrite (build_entry_case_id _ _ _ Eb), (IH ens eq_refl).
    reflexivity.
Qed.

Lemma same_config_refl st : same_config st st.
Proof. unfold same_config. destruct (self st); reflexivity. Qed.

Lemma same_config_put st l sent' :
  same_config st (mkState (set_results l (self st)) sent').
Proof. reflexivity. Qed.

Lemma same_config_trans st st1 st2 :
  same_config st st1 -> same_config st1 st2 -> same_config st st2.
Proof.
  unfold same_config. intros H1 H2. rewrite H2, H1. reflexivity.
Qed.

Lemma same_config_self st st1 st2 :
  same_config st st1 -> self st2 = self st1 -> same_config st st2.
Proof. unfold same_config. intros H1 H2. rewrite H2. exact H1. Qed.

Lemma same_config_publish_blocked st st' :
  same_config st st' -> publish_blocked (self st') = publish_blocked (self st).
Proof. unfold same_config. intros H. rewrite H. reflexivity. Qed.

Lemma exclude_blocked_post run st :
  post (exclude_blocked run) st (exclude_blocked_Q st).
Proof.
  unfold exclude_blocked.
  apply post_bind, post_get_self; cbn beta iota.
  destruct (publish_blocked (self st)) eqn:Epb.
  { apply post_ret. repeat split;
      [apply same_config_refl | apply not_raised_inr | apply adds_only_refl
      | left; reflexivity]. }
  apply post_bind. eapply post_conseq; [apply quiet_get_tests|].
  intros st1 r1 (Hs1 & Hr1 & Ha1).
  assert (finish : forall st' (r : exn + unit),
             st' = st1 -> not_raised r -> exclude_blocked_Q st st' r).
  { intros st' r -> Hr. repeat split;
      [apply (same_config_self st st); [apply same_config_refl | exact Hs1]
      | exact Hr | exact Ha1 | left; congruence]. }
  destruct r1 as [e | [t |]]; cbn beta iota.
  - apply finish; [reflexivity | apply (not_raised_inl _ Hr1)].
  - apply post_bind, post_lift.
    destruct (obj_iter t) as [e | items];
      [apply finish; [reflexivity | apply not_raised_builtin]|].
    apply post_bind, post_lift.
    destruct (blocked_tests_list items) as [e | blocked];
      [apply finish; [reflexivity | apply not_raised_builtin]|].
    apply post_bind, post_get_self; cbn beta iota.
    apply post_put_results. rewrite Hs1. repeat split.
    + apply not_raised_inr.
    + exact Ha1.
    + right. split; [exact Epb|]. eexists. reflexivity.
  - apply post_raise. apply finish; [reflexivity | apply not_raised_builtin].
Qed.

Lemma not_batch_uploads l req : not_batch req -> uploads l req.
Proof. destruct req as [path [data | |] cc | path cc]; simpl; tauto. Qed.

Lemma add_results_post run st :
  post (add_results run) st (add_results_Q st).
Proof.
  unfold add_results, send_post.
  apply post_bind, post_get_self; cbn beta iota.
  apply post_bind, post_put_results; cbn beta iota.
  set (sta := mkState (set_results (sort_by_case_id (results (self st)))
                                   (self st)) (sent st)).
  apply post_bind. eapply post_conseq; [apply exclude_blocked_post|].
  intros st2 r2 (Hc2 & Hr2 & Ha2 & Hres2).
  assert (Hcfg : same_config st st2).
  { eapply same_config_trans; [apply same_config_put | exact Hc2]. }
  assert (Hder : derived (publish_blocked (self st)) (results (self st))
                         (results (self st2))).
  { destruct Hres2 as [-> | [Hpb [keep ->]]].
    - apply SortFacts.derived_sort.
    - cbn in Hpb. rewrite Hpb. apply SortFacts.derived_filter.
      apply SortFacts.derived_sort. }
  assert (finish : forall st' (r : exn + option str),
             self st' = self st2 -> not_raised r ->
             adds_only (uploads (results (self st2))) st2 st' ->
             add_results_Q st st' r).
  { intros st' r Hs Hr Ha. unfold add_results_Q. rewrite Hs.
    repeat split; [eapply same_config_self; eassumption
                  | exact Hder | exact Hr |].
    eapply (adds_only_trans _ st st2 st'); [|exact Ha].
    eapply adds_only_impl; [apply not_batch_uploads | exact Ha2]. }
  destruct r2 as [e | []]; cbn beta iota.
  { apply finish; [reflexivity | apply (not_raised_inl _ Hr2)
                  | apply adds_only_refl]. }
  apply post_bind, post_get_self; cbn beta iota.
  apply post_bind, post_lift.
  destruct (map_err (build_entry (self st2)) (results (self st2)))
    as [e | data] eqn:Ed.
  { apply finish; [reflexivity | apply not_raised_builtin | apply adds_only_refl]. }
  apply post_bind, post_send. intros r3 Hr3.
  set (st3 := mkState (self st2) (sent st2 ++ [_])).
  assert (Ha3 : adds_only (uploads (results (self st2))) st2 st3).
  { apply adds_only_send; [apply adds_only_refl|].
    simpl. apply (map_err_build_entry _ _ _ Ed). }
  destruct r3 as [e | response].
  { apply finish; [reflexivity | apply (not_raised_inl _ Hr3) | exact Ha3]. }
  apply post_bind, post_lift.
  destruct (obj_iter response) as [e | items].
  { apply finish; [reflexivity | apply not_raised_builtin | exact Ha3]. }
  apply post_bind.
  eapply post_conseq;
    [apply (quiet_for_each not_batch); intros; apply quiet_report_terraform|].
  intros st4 r4 (Hs4 & Hr4 & Ha4).
  assert (Ha4' : adds_only (uploads (results (self st2))) st2 st4).
  { eapply adds_only_trans; [exact Ha3|].
    eapply adds_only_impl; [apply not_batch_uploads | exact Ha4]. }
  destruct r4 as [e | []]; cbn beta iota.
  { apply finish; [exact Hs4 | apply (not_raised_inl _ Hr4) | exact Ha4']. }
  destruct (last_bound items) as [resp |].
  - destruct (truthy (get_error resp)).
    + apply post_bind, post_lift.
      destruct (obj_status_code resp) as [e | []].
      * apply finish; [exact Hs4 | apply not_raised_builtin | exact Ha4'].
      * apply post_ret. apply finish; [exact Hs4 | apply not_raised_inr | exact Ha4'].
    + apply post_ret. apply finish; [exact Hs4 | apply not_raised_inr | exact Ha4'].
  - apply post_raise.
    apply finish; [exact Hs4 | apply not_raised_builtin | exact Ha4'].
Qed.

Lemma publish_results_for_run_post run st :
  post (publish_results_for_run run) st (publish_results_for_run_Q st).
Proof.
  unfold publish_results_for_run.
  apply post_bind. eapply post_conseq; [apply add_results_post|].
  intros st1 r1 (Hc & Hd & Hr & _).
  assert (finish : forall st' (r : exn + unit),
             self st' = self st1 -> not_raised r ->
             publish_results_for_run_Q st st' r).
  { intros st' r Hs Hn. unfold publish_results_for_run_Q. rewrite Hs.
    repeat split; [eapply same_config_self; eassumption | exact Hd | exact Hn]. }
  destruct r1 as [e | error]; cbn beta iota.
  { apply finish; [reflexivity | apply (not_raised_inl _ Hr)]. }
  destruct (truthy error).
  2:{ apply post_ret. apply finish; [reflexivity | apply not_raised_inr]. }
  cbv zeta.
  assert (Hq : forall m : M unit,
             quiet (fun _ => True) st1 m ->
             post m st1 (publish_results_for_run_Q st)).
  { intros m Hm. unfold quiet in Hm. eapply post_conseq; [exact Hm|].
    intros st' r (Hs & Hn & _). apply finish; assumption. }
  destruct (extract_terraform_errors _) as [|kv rest]; apply Hq.
  - apply quiet_bind; [apply quiet_lift | intros ids st2 _].
    apply quiet_bind; [apply quiet_get_self | intros p st3 _].
    apply quiet_for_each. intros id st4 _. apply quiet_add_error_results.
  - apply quiet_for_each. intros x st2 _.
    apply (quiet_impl not_batch); [trivial|].
    apply quiet_add_terraform_error_results.
Qed.

Lemma publish_selected_post st : post publish_selected st (publish_selected_Q st).
Proof.
  unfold publish_selected.
  apply post_bind, post_get_self; cbn beta iota.
  destruct (testrun_id (self st) =? 0) eqn:Erun; cbn [negb].
  2:{ eapply post_conseq; [apply publish_results_for_run_post|].
      intros st' r (Hc & Hd & Hr).
      repeat split; [exact Hc | right; exact Hd | exact Hr | intros _; exact Hd]. }
  apply Z.eqb_eq in Erun.
  destruct (testplan_id (self st) =? 0); cbn [negb].
  { apply post_ret.
    repeat split; [apply same_config_refl | left; reflexivity
                  | apply not_raised_inr | congruence]. }
  apply post_bind. eapply post_conseq; [apply quiet_get_available_testruns|].
  intros st1 r1 (Hs1 & Hr1 & _).
  destruct r1 as [e | testruns]; cbn beta iota.
  { unfold publish_selected_Q. rewrite Hs1.
    repeat split; [eapply same_config_self; [apply same_config_refl | exact Hs1]
                  | left; reflexivity | apply (not_raised_inl _ Hr1)
                  | congruence]. }
  apply (post_for_each testruns _
           (fun st2 => same_config st st2
                       /\ evolved (publish_blocked (self st)) (results (self st))
                                  (results (self st2)))).
  - split; [eapply same_config_self; [apply same_config_refl | exact Hs1]|].
    left. congruence.
  - intros run st2 [Hc2 He2].
    eapply post_conseq; [apply publish_results_for_run_post|].
    intros st3 r3 (Hc3 & Hd3 & Hr3).
    rewrite (same_config_publish_blocked _ _ Hc2) in Hd3.
    assert (Hc : same_config st st3) by (eapply same_config_trans; eassumption).
    assert (He : evolved (publish_blocked (self st)) (results (self st))
                         (results (self st3))).
    { eapply SortFacts.evolved_trans; [exact He2 | right; exact Hd3]. }
    destruct r3 as [e | []].
    + repeat split; [exact Hc | exact He | exact Hr3 | congruence].
    + split; assumption.
  - intros st2 [Hc2 He2].
    repeat split; [exact Hc2 | exact He2 | apply not_raised_inr | congruence].
Qed.

Lemma pytest_sessionfinish_post st :
  results (self st) <> [] ->
  post pytest_sessionfinish st (publish_selected_Q st).
Proof.
  intros Hne. unfold pytest_sessionfinish.
  apply post_bind, post_get_self; cbn beta iota.
  destruct (results (self st)) as [|r0 l0] eqn:El; [congruence|].
  apply post_bind. eapply post_conseq; [apply publish_selected_post|].
  intros st1 r1 (Hc & He & Hr & Hd).
  assert (finish : forall st' (r : exn + unit),
             self st' = self st1 -> not_raised r ->
             publish_selected_Q st st' r).
  { intros st' r Hs Hn. unfold publish_selected_Q. rewrite Hs.
    repeat split; [eapply same_config_self; eassumption | exact He | exact Hn
                  | exact Hd]. }
  destruct r1 as [e | []]; cbn beta iota.
  { apply finish; [reflexivity | apply (not_raised_inl _ Hr)]. }
  apply post_bind. eapply post_conseq; [apply quiet_close_selected|].
  intros st2 r2 (Hs2 & Hr2 & _).
  destruct r2 as [e | []]; cbn beta iota.
  - apply finish; [exact Hs2 | apply (not_raised_inl _ Hr2)].
  - apply post_ret. apply finish; [exact Hs2 | apply not_raised_inr].
Qed.

Lemma pytest_sessionfinish_empty st :
  results (self st) = [] ->
  pytest_sessionfinish st = (st, inl (Exception NO_RESULTS_MESSAGE)).
Proof.
  intros H. unfold pytest_sessionfinish, bind, get_self, raise.
  rewrite H. reflexivity.
Qed.

(** C2. With an empty accumulator [pytest_sessionfinish] raises the
    exception "No test results to publish in TestRail" and the client
    receives nothing; it raises an exception of its own in no other
    state. *)
Theorem sessionfinish_raises_iff_no_results (st : State) :
  (results (self st) = [] ->
   pytest_sessionfinish st = (st, inl (Exception NO_RESULTS_MESSAGE)))
  /\ (forall st' msg,
         pytest_sessionfinish st = (st', inl (Exception msg)) ->
         results (self st) = [] /\ st' = st /\ msg = NO_RESULTS_MESSAGE).
Proof.
  split; [apply pytest_sessionfinish_empty|].
  intros st' msg Hrun.
  destruct (results (self st)) as [|r0 l0] eqn:El.
  - rewrite (pytest_sessionfinish_empty st El) in Hrun.
    inversion Hrun. auto.
  - exfalso.
    assert (Hne : results (self st) <> []) by (rewrite El; discriminate).
    pose proof (pytest_sessionfinish_post st Hne) as Hp.
    unfold post in Hp. rewrite Hrun in Hp.
    destruct Hp as (_ & _ & Hr & _). apply (Hr msg). reflexivity.
Qed.

(** C6. After [add_results] the accumulated results are in non-decreasing
    order of case id, the results of one case id follow each other in the
    order they had before, and an upload sent by the call lists the
    accumulated results in this order. *)
Theorem add_results_sorts_stably (run : str) (st : State) :
  let st' := fst (add_results run st) in
  StronglySorted by_case_id (results (self st'))
  /\ (exists keep,
         (publish_blocked (self st) = true -> forall r, keep r = true)
         /\ forall k,
             filter (has_case k) (results (self st'))
             = filter (has_case k) (filter keep (results (self st))))
  /\ (forall path data cc,
         In (POST path (BResults data) cc) (sent st') ->
         In (POST path (BResults data) cc) (sent st)
         \/ map e_case_id data = map case_id (results (self st'))).
Proof.
  pose proof (add_results_post run st) as Hp. unfold post in Hp.
  destruct Hp as (_ & Hd & _ & Ha). cbv zeta. split; [|split].
  - eapply SortFacts.derived_sorted, Hd.
  - destruct Hd as [keep [Hk Hall]]. exists keep. split; [exact Hall|].
    intros k. rewrite Hk.
    rewrite SortFacts.filter_comm, SortFacts.sort_stable.
    apply SortFacts.filter_comm.
  - intros path data cc Hin. destruct (Ha _ Hin) as [H | H]; [left | right]; exact H.
Qed.



End Run.
(** ** The dict of infrastructure errors *)

Module DictFacts.

Lemma keys_dict_set (k v : str) (d : list (str * str)) :
  keys (dict_set k v d) = if existsb (Str.eqb k) (keys d)
                          then keys d else keys d ++ [k].
Proof.
  induction d as [|[k' v'] d IH]; [reflexivity|].
  cbn [dict_set keys map fst existsb].
  destruct (Str.eqb k k') eqn:E.
  - apply StrFacts.eqb_eq in E. subst. reflexivity.
  - cbn [map fst orb]. fold (keys (dict_set k v d)). rewrite IH.
    fold (keys d). destruct (existsb (Str.eqb k) (keys d)); reflexivity.
Qed.

Lemma existsb_eqb_In (k : str) (l : list str) :
  existsb (Str.eqb k) l = true <-> In k l.
Proof.
  rewrite existsb_exists. split.
  - intros [x [Hx E]]. apply StrFacts.eqb_eq in E. subst. exact Hx.
  - intros H. exists k. split; [exact H | apply StrFacts.eqb_refl].
Qed.

Lemma NoDup_dict_set (k v : str) (d : list (str * str)) :
  NoDup (keys d) -> NoDup (keys (dict_set k v d)).
Proof.
  intros H. rewrite keys_dict_set.
  destruct (existsb (Str.eqb k) (keys d)) eqn:E; [exact H|].
  apply NoDup_app; [exact H | constructor; [intros [] | constructor] |].
  intros x Hx [<- | []].
  apply existsb_eqb_In in Hx. congruence.
Qed.

Lemma In_dict_set (k v k' v' : str) (d : list (str * str)) :
  NoDup (keys d) ->
  In (k', v') (dict_set k v d)
  <-> (k' = k /\ v' = v) \/ (k' <> k /\ In (k', v') d).
Proof.
  induction d as [|[k0 v0] d IH]; intros Hnd.
  - simpl. split.
    + intros [H | []]. inversion H. left. auto.
    + intros [[-> ->] | [_ []]]. left. reflexivity.
  - inversion Hnd as [|? ? Hk0 Hnd']; subst.
    cbn [dict_set]. destruct (Str.eqb k k0) eqn:E.
    + apply StrFacts.eqb_eq in E. subst k0. simpl. split.
      * intros [H | H].
        -- inversion H. left. auto.
        -- right. split; [|right; exact H].
           intros ->. apply Hk0. apply (in_map fst) in H. exact H.
      * intros [[-> ->] | [Hne [H | H]]].
        -- left. reflexivity.
        -- inversion H. congruence.
        -- right. exact H.
    + assert (Hne : k <> k0).
      { intros ->. rewrite StrFacts.eqb_refl in E. discriminate. }
      simpl. rewrite (IH Hnd'). split.
      * intros [H | [H | [H1 H2]]].
        -- inversion H; subst. right. split; [congruence | left; reflexivity].
        -- left. exact H.
        -- right. split; [exact H1 | right; exact H2].
      * intros [H | [H1 [H2 | H2]]].
        -- right. left. exact H.
        -- left. exact H2.
        -- right. right. split; assumption.
Qed.

Lemma assign_spec (ms d : list (str * str)) :
  NoDup (keys d) ->
  NoDup (keys (assign ms d))
  /\ forall id msg,
      In (id, msg) (assign ms d)
      <-> last_for ms id msg \/ (In (id, msg) d /\ ~ In id (keys ms)).
Proof.
  revert d. induction ms as [|[k v] ms IH]; intros d Hnd.
  - split; [exact Hnd|]. intros id msg. simpl. split.
    + intros H. right. split; [exact H | tauto].
    + intros [[[|x b] [a [H _]]] | [H _]]; try discriminate. exact H.
  - cbn [assign fold_left fst snd].
    destruct (IH (dict_set k v d) (NoDup_dict_set k v d Hnd)) as [Hn Hin].
    split; [exact Hn|]. intros id msg.
    unfold assign in Hin. rewrite Hin, (In_dict_set k v id msg d Hnd).
    unfold last_for. cbn [keys map fst In]. split.
    + intros [[b [a [-> Ha]]] | [[[-> ->] | [Hne Hd]] Hms]].
      * left. exists ((k, v) :: b), a. split; [reflexivity | exact Ha].
      * left. exists [], ms. split; [reflexivity | exact Hms].
      * right. split; [exact Hd|]. intros [H | H]; [congruence | exact (Hms H)].
    + intros [[[|x b] [a [H Ha]]] | [Hd Hms]].
      * inversion H; subst. right. split; [left; auto | exact Ha].
      * inversion H; subst. left. exists b, a. split; [reflexivity | exact Ha].
      * right. split; [|tauto]. right. split; [|exact Hd].
        intros ->. apply Hms. left. reflexivity.
Qed.

End DictFacts.

(** [extract_terraform_errors] keeps one message per case id, the one of the
    last match. *)
Lemma extract_terraform_errors_spec (error : str) :
  NoDup (map fst (extract_terraform_errors error))
  /\ forall id msg,
      In (id, msg) (extract_terraform_errors error)
      <-> last_for (terraform_matches error) id msg.
Proof.
  destruct (DictFacts.assign_spec (terraform_matches error) [] (NoDup_nil _))
    as [Hn Hin].
  split; [exact Hn|]. intros id msg.
  change (extract_terraform_errors error)
    with (assign (terraform_matches error) []).
  rewrite Hin. simpl. tauto.
Qed.

(** An [int] is equal to no [str], so the test [case_id not in
    invalid_test_ids] of the reconciliation holds of every result. *)
Lemma not_in_ids_always (ids : list str) (r : ResultRecord) :
  not_in_ids ids r = true.
Proof.
  unfold not_in_ids, py_in. induction ids as [|id ids IH]; [reflexivity|].
  simpl. exact IH.
Qed.

(** ** Reconciliation after a rejected upload *)

Section Reconcile.
Context {client : Client}.

Lemma answers_all_app (received a b : list Request) :
  answers_all received (a ++ b)
  <-> answers_all received a /\ answers_all (received ++ a) b.
Proof.
  revert received. induction a as [|req a IH]; intros received; simpl.
  - rewrite app_nil_r. tauto.
  - rewrite IH, <- app_assoc. simpl. tauto.
Qed.

(** A loop that sends one request per element, when every request is
    answered. *)
Lemma for_each_send_all {A} (f : A -> Request) (body : A -> M unit)
      (l : list A) (st : State) :
  (forall x st1, body x st1 = bind (send (f x)) (fun _ => ret tt) st1) ->
  answers_all (sent st) (map f l) ->
  for_each l body st = (mkState (self st) (sent st ++ map f l), inr tt).
Proof.
  intros Hbody. revert st. induction l as [|x l IH]; intros st Hans.
  - simpl. rewrite app_nil_r. destruct st; reflexivity.
  - cbn [for_each map answers_all] in *. destruct Hans as [[o Ho] Hrest].
    unfold bind at 1. rewrite Hbody. unfold bind, send. rewrite Ho.
    cbn [ret]. rewrite IH; [|exact Hrest].
    cbn [self sent]. rewrite <- app_assoc. reflexivity.
Qed.

(** A loop that sends one request per element: what was sent is a prefix
    of the requests. *)
Lemma for_each_send_prefix {A} (f : A -> Request) (body : A -> M unit)
      (l : list A) (st : State) :
  (forall x st1, body x st1 = bind (send (f x)) (fun _ => ret tt) st1) ->
  exists done rest,
    l = done ++ rest
    /\ fst (for_each l body st)
       = mkState (self st) (sent st ++ map f done).
Proof.
  intros Hbody. revert st. induction l as [|x l IH]; intros st.
  - exists [], []. simpl. rewrite app_nil_r. destruct st; auto.
  - cbn [for_each]. unfold bind at 1. rewrite Hbody. unfold bind, send.
    destruct (reply (sent st) (f x)) as [msg | o].
    + exists [x], l. auto.
    + cbn [ret]. destruct (IH (mkState (self st) (sent st ++ [f x])))
        as [done [rest [-> H]]].
      exists (x :: done), rest. rewrite H. cbn [self sent map].
      rewrite <- app_assoc. auto.
Qed.

Lemma add_error_results_run (run error id : str) (st : State) :
  answers_all (sent st) (error_requests run error (self st) id) ->
  add_error_results run [id] error st
  = (mkState (self st) (sent st ++ error_requests run error (self st) id),
     inr tt).
Proof.
  intros H. unfold add_error_results, bind at 1, get_self.
  apply (for_each_send_all (error_request run error (cert_check (self st)))).
  - reflexivity.
  - exact H.
Qed.

Lemma for_each_add_error_results (run error : str) (ids : list str)
      (st : State) :
  answers_all (sent st)
              (flat_map (error_requests run error (self st)) ids) ->
  for_each ids (fun id => add_error_results run [id] error) st
  = (mkState (self st)
             (sent st ++ flat_map (error_requests run error (self st)) ids),
     inr tt).
Proof.
  revert st. induction ids as [|id ids IH]; intros st H.
  - simpl. rewrite app_nil_r. destruct st; reflexivity.
  - cbn [for_each flat_map] in *. apply answers_all_app in H.
    destruct H as [H1 H2]. unfold bind.
    rewrite (add_error_results_run run error id st H1).
    rewrite IH; cbn [self sent]; [|exact H2].
    rewrite <- app_assoc. reflexivity.
Qed.

(** The generic reconciliation as it is written.  When the upload is
    rejected with an error text that has no infrastructure-error match, the
    accumulated results stay as they are; for each case id token of the
    error text, in order, and for each accumulated result that passes the
    membership test against that token (every result does, see
    [not_in_ids_always]), one upload of a single entry is sent with the case
    id of that result, the failed status, the error text as comment and
    empty defects. *)
Theorem generic_reconciliation (run : str) (st st1 : State) (error : str)
        (ids : list str) :
  add_results run st = (st1, inr (Some error)) ->
  error <> [] ->
  extract_terraform_errors error = [] ->
  invalid_test_ids error = inr ids ->
  answers_all (sent st1) (flat_map (error_requests run error (self st1)) ids) ->
  publish_results_for_run run st
  = (mkState (self st1)
             (sent st1 ++ flat_map (error_requests run error (self st1)) ids),
     inr tt).
Proof.
  intros Hadd Hne Hex Hids Hans.
  unfold publish_results_for_run, bind at 1. rewrite Hadd.
  destruct error as [|c error]; [congruence|]. cbn [truthy].
  cbv zeta. rewrite Hex. unfold bind at 1, lift. rewrite Hids.
  unfold bind at 1, get_self.
  apply for_each_add_error_results. exact Hans.
Qed.

(** C3 (as the code has it). When the upload is rejected with an error
    text that has infrastructure-error matches, the reconciliation sends,
    for each distinct case id among the matches, one request to
    [add_result_for_case/{run}/{case id}] with the status ['8'] and the
    comment ["Terraform Exception: "] followed by the message of the last
    match for that case id, and nothing else.  For a text that contains
    [case 42 ... TerraformException: disk full\n] this is one request for
    case 42 with the comment ["Terraform Exception: disk full"]. *)
Theorem terraform_reconciliation (run : str) (st st1 : State) (error : str) :
  add_results run st = (st1, inr (Some error)) ->
  extract_terraform_errors error <> [] ->
  answers_all (sent st1)
              (map (terraform_item_request run) (extract_terraform_errors error)) ->
  publish_results_for_run run st
  = (mkState (self st1)
             (sent st1 ++ map (terraform_item_request run)
                              (extract_terraform_errors error)),
     inr tt)
  /\ NoDup (map fst (extract_terraform_errors error))
  /\ (forall id msg,
         In (id, msg) (extract_terraform_errors error)
         <-> last_for (terraform_matches error) id msg)
  /\ map (terraform_item_request run)
         (extract_terraform_errors
            (lit "HTTP 400 (case 42 ... TerraformException: disk full\n)"))
     = [POST (lit "add_result_for_case/" ++ run ++ lit "/42")
             (BResult (lit "8") (lit "Terraform Exception: disk full"))
             None].
Proof.
  intros Hadd Hex Hans.
  destruct (extract_terraform_errors_spec error) as [Hn Hl].
  split; [|split; [exact Hn | split; [exact Hl | reflexivity]]].
  unfold publish_results_for_run, bind at 1. rewrite Hadd.
  assert (Hne : error <> []).
  { intros ->. apply Hex. reflexivity. }
  destruct error as [|c error]; [congruence|]. cbn [truthy]. cbv zeta.
  destruct (extract_terraform_errors (c :: error)) as [|kv rest] eqn:E;
    [congruence|].
  apply (for_each_send_all (terraform_item_request run)).
  - reflexivity.
  - exact Hans.
Qed.

(** C9. [extract_terraform_errors] returns at most one message per case
    id, the message of the last match for that id; the requests of the
    infrastructure-error reconciliation are taken in order from this dict,
    so that no two of them are for the same case id. *)
Theorem extract_keeps_last_match (error : str) :
  NoDup (map fst (extract_terraform_errors error))
  /\ (forall id msg,
         In (id, msg) (extract_terraform_errors error)
         <-> last_for (terraform_matches error) id msg)
  /\ (forall run st st1,
         add_results run st = (st1, inr (Some error)) ->
         extract_terraform_errors error <> [] ->
         exists done rest,
           extract_terraform_errors error = done ++ rest
           /\ NoDup (map fst done)
           /\ fst (publish_results_for_run run st)
              = mkState (self st1)
                        (sent st1 ++ map (terraform_item_request run) done)).
Proof.
  destruct (extract_terraform_errors_spec error) as [Hn Hl].
  split; [exact Hn|]. split; [exact Hl|].
  intros run st st1 Hadd Hex.
  unfold publish_results_for_run, bind at 1. rewrite Hadd.
  assert (Hne : error <> []).
  { intros ->. apply Hex. reflexivity. }
  destruct error as [|c error]; [congruence|]. cbn [truthy]. cbv zeta.
  destruct (extract_terraform_errors (c :: error)) as [|kv rest] eqn:E;
    [congruence|].
  destruct (for_each_send_prefix (terraform_item_request run)
              (fun kv => add_terraform_error_results run (fst kv) (snd kv))
              (kv :: rest) st1 (fun _ _ => eq_refl))
    as [done [rest' [Hsplit Hrun]]].
  exists done, rest'. split; [exact Hsplit|]. split; [|exact Hrun].
  rewrite Hsplit, map_app in Hn. apply NoDup_app_remove_r in Hn. exact Hn.
Qed.

End Reconcile.

(** ** Sample sessions *)

Lemma generic_reconciliation_witness :
  let c := scripted [rejected invalid_case_error] in
  let st1 := fst (@add_results c (lit "1") two_results) in
  @publish_results_for_run c (lit "1") two_results
  = (mkState (self st1)
             (sent st1
              ++ flat_map (error_requests (lit "1") invalid_case_error (self st1))
                          [lit "17"]),
     inr tt).
Proof.
  intros c st1.
  apply (@generic_reconciliation c (lit "1") two_results st1 invalid_case_error
                                 [lit "17"]).
  - vm_compute. reflexivity.
  - discriminate.
  - vm_compute. reflexivity.
  - vm_compute. reflexivity.
  - vm_compute. repeat (split; [eexists; reflexivity|]). exact I.
Defined.


Lemma terraform_reconciliation_witness :
  let c := scripted [rejected repeated_case_error] in
  let st1 := fst (@add_results c (lit "7") two_results) in
  @publish_results_for_run c (lit "7") two_results
  = (mkState (self st1)
             (sent st1 ++ map (terraform_item_request (lit "7"))
                              (extract_terraform_errors repeated_case_error)),
     inr tt).
Proof.
  intros c st1.
  refine (proj1 (@terraform_reconciliation c (lit "7") two_results st1
                                           repeated_case_error _ _ _)).
  - vm_compute. reflexivity.
  - vm_compute. discriminate.
  - vm_compute. repeat (split; [eexists; reflexivity|]). exact I.
Defined.

(** Two matches for case 1: the pair of the first match gets no request. *)
Lemma first_of_two_matches_is_not_submitted :
  let c := scripted [rejected repeated_case_error] in
  let st1 := fst (@add_results c (lit "7") two_results) in
  let st' := fst (@publish_results_for_run c (lit "7") two_results) in
  @add_results c (lit "7") two_results = (st1, inr (Some repeated_case_error))
  /\ terraform_matches repeated_case_error
     = [(lit "1", lit "a"); (lit "1", lit "b")]
  /\ sent st'
     = sent st1
       ++ [POST (lit "add_result_for_case/7/1")
                (BResult (lit "8") (lit "Terraform Exception: b")) None]
  /\ ~ In (POST (lit "add_result_for_case/7/1")
                (BResult (lit "8") (lit "Terraform Exception: a")) None)
          (sent st').
Proof.
  vm_compute. repeat split; try reflexivity.
  intros [H | [H | []]]; discriminate H.
Qed.

Lemma extract_keeps_last_match_witness :
  let c := scripted [rejected repeated_case_error] in
  let st1 := fst (@add_results c (lit "7") two_results) in
  exists done rest,
    extract_terraform_errors repeated_case_error = done ++ rest
    /\ NoDup (map fst done)
    /\ fst (@publish_results_for_run c (lit "7") two_results)
       = mkState (self st1) (sent st1 ++ map (terraform_item_request (lit "7")) done).
Proof.
  intros c st1.
  destruct (@extract_keeps_last_match c repeated_case_error) as [_ [_ H]].
  apply (H (lit "7") two_results st1).
  - vm_compute. reflexivity.
  - vm_compute. discriminate.
Defined.


(** Results for cases 10 (passed) and 5 (failed): the upload lists case 5
    first. *)
Example upload_order :
  let c := scripted [accepted] in
  let st := mkState (sample_plugin [sample_result 10 1 (lit "None");
                                    sample_result 5 5 (lit "assert 0")]) [] in
  match sent (fst (@add_results c (lit "1") st)) with
  | [POST _ (BResults data) _] =>
      map (fun e => (e_case_id e, e_status_id e)) data = [(5, 5); (10, 1)]
  | _ => False
  end.
Proof. vm_compute. reflexivity. Qed.

(** ** Matching with backtracking *)

Module ReFacts.

Lemma rep_greedy_sound {R} (cls : ascii -> bool) (s : str)
      (k : str -> option R) (r : R) :
  Re.rep_greedy cls s k = Some r ->
  exists pre rest, s = pre ++ rest /\ forallb cls pre = true /\ k rest = Some r.
Proof.
  induction s as [|c s IH]; simpl.
  - intros H. exists [], []. auto.
  - destruct (cls c) eqn:Ec.
    + destruct (Re.rep_greedy cls s k) as [r'|] eqn:E.
      * intros H. inversion H; subst.
        destruct (IH eq_refl) as [pre [rest [-> [Hp Hk]]]].
        exists (c :: pre), rest. simpl. rewrite Ec, Hp. auto.
      * intros H. exists [], (c :: s). auto.
    + intros H. exists [], (c :: s). auto.
Qed.

Lemma rep_lazy_sound {R} (cls : ascii -> bool) (s : str)
      (k : str -> option R) (r : R) :
  Re.rep_lazy cls s k = Some r ->
  exists pre rest, s = pre ++ rest /\ forallb cls pre = true /\ k rest = Some r.
Proof.
  induction s as [|c s IH]; simpl.
  - destruct (k []) eqn:E; [|discriminate].
    intros H. inversion H; subst. exists [], []. auto.
  - destruct (k (c :: s)) eqn:E.
    + intros H. inversion H; subst. exists [], (c :: s). auto.
    + destruct (cls c) eqn:Ec; [|discriminate].
      intros H. destruct (IH H) as [pre [rest [-> [Hp Hk]]]].
      exists (c :: pre), rest. simpl. rewrite Ec, Hp. auto.
Qed.

Lemma rep_sound {R} (g : bool) (cls : ascii -> bool) (s : str)
      (k : str -> option R) (r : R) :
  Re.rep g cls s k = Some r ->
  exists pre rest, s = pre ++ rest /\ forallb cls pre = true /\ k rest = Some r.
Proof.
  destruct g; [apply rep_greedy_sound | apply rep_lazy_sound].
Qed.

(** A greedy repetition takes the whole run when the continuation accepts
    what follows it. *)
Lemma rep_greedy_run {R} (cls : ascii -> bool) (run rest : str)
      (k : str -> option R) (r : R) :
  forallb cls run = true ->
  match rest with [] => True | c :: _ => cls c = false end ->
  k rest = Some r ->
  Re.rep_greedy cls (run ++ rest) k = Some r.
Proof.
  intros Hrun Hrest Hk. induction run as [|c run IH]; simpl in *.
  - destruct rest as [|c rest]; [exact Hk|]. simpl. rewrite Hrest. exact Hk.
  - apply andb_true_iff in Hrun. destruct Hrun as [Hc Hrun].
    rewrite Hc, (IH Hrun). reflexivity.
Qed.

Lemma rep_greedy_none {R} (cls : ascii -> bool) (s : str)
      (k : str -> option R) :
  (forall pre rest, s = pre ++ rest -> forallb cls pre = true -> k rest = None) ->
  Re.rep_greedy cls s k = None.
Proof.
  intros H. destruct (Re.rep_greedy cls s k) as [r|] eqn:E; [|reflexivity].
  destruct (rep_greedy_sound cls s k r E) as [pre [rest [Hs [Hp Hk]]]].
  rewrite (H pre rest Hs Hp) in Hk. discriminate.
Qed.

Lemma strip_prefix_sound (p s rest : str) :
  Re.strip_prefix p s = Some rest -> s = p ++ rest.
Proof.
  revert s. induction p as [|x p IH]; intros [|y s]; simpl;
    try discriminate; try (intros H; inversion H; reflexivity).
  destruct (Ascii.eqb x y) eqn:E; [|discriminate].
  apply Ascii.eqb_eq in E. subst. intros H. rewrite (IH s H). reflexivity.
Qed.

Lemma search_sound {A} (m : str -> option A) (s : str) (r : A) :
  search m s = Some r -> exists pre suf, s = pre ++ suf /\ m suf = Some r.
Proof.
  induction s as [|c s IH]; simpl.
  - destruct (m []) eqn:E; [|discriminate].
    intros H. inversion H; subst. exists [], []. auto.
  - destruct (m (c :: s)) eqn:E.
    + intros H. inversion H; subst. exists [], (c :: s). auto.
    + intros H. destruct (IH H) as [pre [suf [-> Hm]]].
      exists (c :: pre), suf. auto.
Qed.

Lemma search_skip {A} (m : str -> option A) (pre suf : str) :
  (forall a b, pre = a ++ b -> b <> [] -> m (b ++ suf) = None) ->
  search m (pre ++ suf) = search m suf.
Proof.
  induction pre as [|c pre IH]; intros H; [reflexivity|].
  pose proof (H [] (c :: pre) eq_refl ltac:(discriminate)) as H0.
  cbn [app] in H0. cbn [app search]. rewrite H0.
  apply IH. intros a b -> Hb. apply (H (c :: a) b); [reflexivity | exact Hb].
Qed.

End ReFacts.

(** ** Case ids *)

Module IdFacts.

Lemma at_end_short (s : str) : at_end s = true -> (length s <= 1)%nat.
Proof. destruct s as [|a [|b s]]; simpl; try discriminate; lia. Qed.

Lemma at_end_not_digit (tail : str) :
  at_end tail = true ->
  match tail with [] => True | c :: _ => Re.digit c = false end.
Proof.
  destruct tail as [|a [|b s]]; simpl; try discriminate; [trivial|].
  intros H. apply Ascii.eqb_eq in H. subst. reflexivity.
Qed.

Lemma firstn_app_exact {A} (a b : list A) :
  firstn (length (a ++ b) - length b) (a ++ b) = a.
Proof.
  rewrite length_app. replace (length a + length b - length b)%nat
    with (length a + 0)%nat by lia.
  rewrite firstn_app_2. simpl. apply app_nil_r.
Qed.

(** The pattern matches at the head of a run of digits that ends the text. *)
Lemma match_test_id_run (digits tail : str) :
  digits <> [] -> forallb Re.digit digits = true -> at_end tail = true ->
  match_test_id (digits ++ tail) = Some digits.
Proof.
  intros Hne Hd Ht. destruct digits as [|d ds]; [congruence|].
  simpl in Hd. apply andb_true_iff in Hd. destruct Hd as [Hd Hds].
  unfold match_test_id. cbn [Re.rmatch app]. rewrite Hd. unfold Re.rep.
  apply ReFacts.rep_greedy_run; [exact Hds | apply at_end_not_digit, Ht|].
  rewrite Ht. f_equal. apply (firstn_app_exact (d :: ds) tail).
Qed.

Lemma match_test_id_sound (s g : str) :
  match_test_id s = Some g ->
  exists tail, s = g ++ tail /\ g <> [] /\ forallb Re.digit g = true
               /\ at_end tail = true.
Proof.
  unfold match_test_id. destruct s as [|c s]; cbn [Re.rmatch]; [discriminate|].
  destruct (Re.digit c) eqn:Ec; [|discriminate].
  intros H. apply ReFacts.rep_sound in H.
  destruct H as [pre [rest [-> [Hp Hk]]]].
  destruct (at_end rest) eqn:Ea; [|discriminate].
  change (c :: pre ++ rest) with ((c :: pre) ++ rest) in Hk.
  rewrite (firstn_app_exact (c :: pre) rest) in Hk.
  inversion Hk; subst. exists rest.
  split; [reflexivity|]. split; [discriminate|].
  split; [simpl; rewrite Ec, Hp; reflexivity | exact Ea].
Qed.

(** The pattern matches nowhere before a maximal run of trailing digits. *)
Lemma match_test_id_before (b' digits tail : str) (c : ascii) :
  digits <> [] -> Re.digit c = false ->
  match_test_id ((b' ++ [c]) ++ digits ++ tail) = None.
Proof.
  intros Hne Hc.
  destruct (match_test_id ((b' ++ [c]) ++ digits ++ tail)) as [g|] eqn:E;
    [|reflexivity].
  exfalso. apply match_test_id_sound in E.
  destruct E as [rest [Hs [Hg [Hgd Hrest]]]].
  apply at_end_short in Hrest.
  assert (Hlen : (length g <= length b')%nat).
  { destruct (Nat.le_gt_cases (length g) (length b')) as [H | H]; [exact H|].
    exfalso.
    assert (Hn : nth_error g (length b') = Some c).
    { rewrite <- (nth_error_app1 g rest H), <- Hs, <- app_assoc.
      rewrite nth_error_app2 by lia. rewrite Nat.sub_diag. reflexivity. }
    apply nth_error_In in Hn. rewrite forallb_forall in Hgd.
    rewrite (Hgd c Hn) in Hc. discriminate. }
  apply (f_equal (@length ascii)) in Hs. rewrite !length_app in Hs. simpl in Hs.
  destruct digits; [congruence|]. simpl in Hs. lia.
Qed.

Lemma search_test_id (s digits : str) :
  maximal_trailing_digits s digits -> search match_test_id s = Some digits.
Proof.
  intros [before [tail [-> [Hne [Hd [Ht Hmax]]]]]].
  rewrite ReFacts.search_skip.
  - destruct digits as [|d ds]; [congruence|].
    cbn [app search]. change (d :: ds ++ tail) with ((d :: ds) ++ tail).
    rewrite (match_test_id_run (d :: ds) tail Hne Hd Ht). reflexivity.
  - intros a b -> Hb.
    destruct (exists_last Hb) as [b' [c ->]].
    apply (match_test_id_before b' digits tail c Hne).
    apply (Hmax (a ++ b') c). rewrite app_assoc. reflexivity.
Qed.

Lemma clean_test_id_value (s digits : str) :
  maximal_trailing_digits s digits ->
  clean_test_id s = int_of_digits digits.
Proof.
  intros H. unfold clean_test_id. rewrite (search_test_id s digits H).
  reflexivity.
Qed.

Lemma int_of_digits_short (s : str) :
  (length s <= INT_MAX_STR_DIGITS)%nat -> int_of_digits s = inr (digits_value s).
Proof.
  intros H. unfold int_of_digits. apply Nat.ltb_ge in H. rewrite H.
  reflexivity.
Qed.

Lemma int_of_digits_long (s : str) :
  (INT_MAX_STR_DIGITS < length s)%nat -> int_of_digits s = inl ValueError.
Proof.
  intros H. unfold int_of_digits. apply Nat.ltb_lt in H. rewrite H.
  reflexivity.
Qed.

Lemma clean_test_id_error (s : str) :
  (forall digits, ~ trailing_digits s digits) ->
  clean_test_id s = inl AttributeError.
Proof.
  intros H. unfold clean_test_id.
  destruct (search match_test_id s) as [g|] eqn:E; [|reflexivity].
  exfalso. apply ReFacts.search_sound in E.
  destruct E as [pre [suf [-> Hm]]].
  apply match_test_id_sound in Hm. destruct Hm as [tail [-> [Hg [Hd Ht]]]].
  apply (H g). exists pre, tail. auto.
Qed.

Lemma clean_test_id_result (s : str) :
  (exists n, clean_test_id s = inr n)
  \/ clean_test_id s = inl AttributeError
  \/ clean_test_id s = inl ValueError.
Proof.
  unfold clean_test_id, int_of_digits.
  destruct (search match_test_id s); [|auto].
  destruct (_ <? _)%nat; eauto.
Qed.

End IdFacts.

(** ** Decimal numerals *)

Module DecimalFacts.

Lemma fold_acc (d : Decimal.uint) (acc : positive) :
  fold_left shift_digit (uint_chars d) (Zpos acc) = Zpos (Pos.of_uint_acc d acc).
Proof.
  revert acc. unfold uint_chars.
  induction d as [|d IH|d IH|d IH|d IH|d IH|d IH|d IH|d IH|d IH|d IH];
    intros acc; [reflexivity|..];
    cbn [NilEmpty.string_of_uint list_ascii_of_string fold_left Pos.of_uint_acc];
    rewrite <- IH; f_equal; unfold shift_digit, digit_value; cbn [nat_of_ascii];
    vm_compute (Z.of_nat _ - 48); lia.
Qed.

Lemma fold_zero (d : Decimal.uint) :
  fold_left shift_digit (uint_chars d) 0 = Z.of_N (Pos.of_uint d).
Proof.
  unfold uint_chars.
  induction d as [|d IH|d IH|d IH|d IH|d IH|d IH|d IH|d IH|d IH|d IH];
    [reflexivity | exact IH |..];
    cbn [NilEmpty.string_of_uint list_ascii_of_string fold_left Pos.of_uint
         Z.of_N];
    rewrite <- fold_acc; reflexivity.
Qed.

Lemma chars_digits (d : Decimal.uint) : forallb Re.digit (uint_chars d) = true.
Proof.
  unfold uint_chars.
  induction d as [|d IH|d IH|d IH|d IH|d IH|d IH|d IH|d IH|d IH|d IH];
    [reflexivity|..];
    cbn [NilEmpty.string_of_uint list_ascii_of_string forallb];
    rewrite IH; reflexivity.
Qed.

Lemma of_Z_pos (p : positive) : Str.of_Z (Zpos p) = uint_chars (Pos.to_uint p).
Proof.
  unfold Str.of_Z, uint_chars. cbn [Z.to_int NilZero.string_of_int].
  unfold NilZero.string_of_uint.
  pose proof (Unsigned.to_uint_nonnil p) as H.
  destruct (Pos.to_uint p); congruence.
Qed.

(** [str] of a natural number: decimal digits, at least one. *)
Lemma of_Z_digits (n : Z) :
  0 <= n -> Str.of_Z n <> [] /\ forallb Re.digit (Str.of_Z n) = true.
Proof.
  intros Hn. destruct n as [|p|p]; [split; [discriminate | reflexivity]| |lia].
  rewrite of_Z_pos. split; [|apply chars_digits].
  pose proof (Unsigned.to_uint_nonnil p) as H. unfold uint_chars.
  destruct (Pos.to_uint p); try congruence; discriminate.
Qed.

(** The numeral that [str] writes for [n] denotes [n]. *)
Lemma digits_value_of_Z (n : Z) : 0 <= n -> digits_value (Str.of_Z n) = n.
Proof.
  intros Hn. destruct n as [|p|p]; [reflexivity| |lia].
  rewrite of_Z_pos. unfold digits_value.
  change (fun acc c => 10 * acc + digit_value c) with shift_digit.
  rewrite fold_zero, Unsigned.of_to. reflexivity.
Qed.

End DecimalFacts.

(** ** The length of a decimal numeral *)

Module NumeralFacts.

Lemma digit_value_range (c : ascii) :
  Re.digit c = true -> 0 <= digit_value c <= 9.
Proof.
  unfold Re.digit, digit_value. cbv zeta. intros H.
  apply andb_true_iff in H. destruct H as [H1 H2].
  apply Nat.leb_le in H1, H2. lia.
Qed.

Lemma fold_bounds (s : str) (acc : Z) :
  forallb Re.digit s = true -> 0 <= acc ->
  acc * 10 ^ Z.of_nat (length s) <= fold_left shift_digit s acc
  /\ fold_left shift_digit s acc < (acc + 1) * 10 ^ Z.of_nat (length s).
Proof.
  revert acc. induction s as [|c s IH]; intros acc Hd Hacc.
  - cbn [fold_left length Z.of_nat]. rewrite Z.pow_0_r. lia.
  - cbn [forallb] in Hd. apply andb_true_iff in Hd. destruct Hd as [Hc Hs].
    pose proof (digit_value_range c Hc) as Hr.
    cbn [fold_left length]. rewrite Nat2Z.inj_succ, Z.pow_succ_r by lia.
    assert (H0 : 0 <= shift_digit acc c) by (unfold shift_digit; lia).
    destruct (IH (shift_digit acc c) Hs H0) as [Hlo Hhi].
    assert (Hp : 0 < 10 ^ Z.of_nat (length s)) by (apply Z.pow_pos_nonneg; lia).
    unfold shift_digit in *. split; nia.
Qed.

Lemma nzhead_shorter (d : Decimal.uint) :
  (Decimal.nb_digits (Decimal.nzhead d) <= Decimal.nb_digits d)%nat.
Proof.
  induction d; cbn [Decimal.nzhead Decimal.nb_digits]; lia.
Qed.

(** The numeral of a positive number does not start with a zero. *)
Lemma to_uint_head (p : positive) (d : Decimal.uint) :
  Pos.to_uint p <> Decimal.D0 d.
Proof.
  intros E.
  assert (Hn : Pos.to_uint p = Decimal.unorm (Pos.to_uint p)).
  { rewrite <- Unsigned.to_of, Unsigned.of_to. reflexivity. }
  rewrite E in Hn. unfold Decimal.unorm in Hn. cbn [Decimal.nzhead] in Hn.
  pose proof (nzhead_shorter d) as Hs.
  destruct (Decimal.nzhead d) eqn:En;
    try (rewrite <- Hn in Hs; cbn [Decimal.nb_digits] in Hs; lia).
  inversion Hn; subst d. apply (Unsigned.to_uint_nonzero p). exact E.
Qed.

Lemma length_uint_chars (d : Decimal.uint) :
  length (uint_chars d) = Decimal.nb_digits d.
Proof.
  unfold uint_chars.
  induction d; cbn [NilEmpty.string_of_uint list_ascii_of_string length
                    Decimal.nb_digits]; congruence.
Qed.

Lemma of_Z_below (n : Z) :
  0 <= n -> n < 10 ^ Z.of_nat (length (Str.of_Z n)).
Proof.
  intros Hn. destruct n as [|p|p]; [reflexivity| |lia].
  rewrite DecimalFacts.of_Z_pos.
  pose proof (fold_bounds (uint_chars (Pos.to_uint p)) 0
                (DecimalFacts.chars_digits _) ltac:(lia)) as [_ H].
  rewrite DecimalFacts.fold_zero, Unsigned.of_to in H. cbn [Z.of_N] in H. lia.
Qed.

Lemma of_Z_above (n : Z) :
  0 < n -> 10 ^ Z.of_nat (length (Str.of_Z n) - 1) <= n.
Proof.
  intros Hn. destruct n as [|p|p]; [lia| |lia].
  rewrite DecimalFacts.of_Z_pos.
  pose proof (DecimalFacts.fold_zero (Pos.to_uint p)) as Hv.
  rewrite Unsigned.of_to in Hv. cbn [Z.of_N] in Hv.
  pose proof (DecimalFacts.chars_digits (Pos.to_uint p)) as Hd.
  destruct (Pos.to_uint p) as [|d|d|d|d|d|d|d|d|d|d] eqn:E;
    [exfalso; apply (Unsigned.to_uint_nonnil p E)
    | exfalso; apply (to_uint_head p d E) |..];
    unfold uint_chars in *;
    cbn [NilEmpty.string_of_uint list_ascii_of_string fold_left length forallb]
      in *;
    apply andb_true_iff in Hd; destruct Hd as [_ Hd];
    rewrite Nat.sub_succ, Nat.sub_0_r;
    match type of Hv with
    | fold_left _ ?s ?a = _ =>
        assert (Ha : 1 <= a) by (vm_compute; discriminate);
        pose proof (fold_bounds s a Hd ltac:(lia)) as [Hlo _];
        assert (Hp : 0 < 10 ^ Z.of_nat (length s))
          by (apply Z.pow_pos_nonneg; lia);
        rewrite Hv in Hlo; nia
    end.
Qed.

(** [str(n)] has at most [k] digits exactly when [n] is below [10 ** k]. *)
Lemma of_Z_length (n : Z) (k : nat) :
  0 <= n -> (1 <= k)%nat ->
  (length (Str.of_Z n) <= k)%nat <-> n < 10 ^ Z.of_nat k.
Proof.
  intros Hn Hk. split.
  - intros Hl. pose proof (of_Z_below n Hn) as Hb.
    assert (10 ^ Z.of_nat (length (Str.of_Z n)) <= 10 ^ Z.of_nat k)
      by (apply Z.pow_le_mono_r; lia).
    lia.
  - intros Hlt. destruct (Z.eq_dec n 0) as [-> | Hnz]; [exact Hk|].
    pose proof (of_Z_above n ltac:(lia)) as Ha.
    assert (Hlt' : 10 ^ Z.of_nat (length (Str.of_Z n) - 1) < 10 ^ Z.of_nat k)
      by lia.
    apply Z.pow_lt_mono_r_iff in Hlt'; lia.
Qed.

Lemma map_err_stops {A B} (f : A -> pyerr + B) (before after : list A)
      (bad : A) (ys : list B) (e : pyerr) :
  map_err f before = inr ys -> f bad = inl e ->
  map_err f (before ++ bad :: after) = inl e.
Proof.
  revert ys. induction before as [|x l IH]; intros ys Hl Hb.
  - cbn [app map_err]. rewrite Hb. reflexivity.
  - cbn [app map_err] in *. destruct (f x) as [e0 | y]; [discriminate|].
    cbn [bind_err] in *.
    destruct (map_err f l) as [e1 | zs] eqn:El; [discriminate|].
    rewrite (IH zs eq_refl Hb). reflexivity.
Qed.

End NumeralFacts.

(** X1. [clean_test_ids] on ids that each end with a run of digits, possibly
    followed by one final line feed: when every run has at most
    [INT_MAX_STR_DIGITS] digits, the result is the numbers that the whole
    runs denote; when one run is longer, [int] raises [ValueError]. *)
Theorem clean_test_ids_values (test_ids digits : list str) :
  Forall2 maximal_trailing_digits test_ids digits ->
  (Forall (fun d => (length d <= INT_MAX_STR_DIGITS)%nat) digits ->
   clean_test_ids test_ids = inr (map digits_value digits))
  /\ (Exists (fun d => (INT_MAX_STR_DIGITS < length d)%nat) digits ->
      clean_test_ids test_ids = inl ValueError).
Proof.
  unfold clean_test_ids.
  induction 1 as [|id ds ids dss Hid _ [IHok IHbad]].
  - split; [reflexivity | intros H; inversion H].
  - cbn [map_err map]. rewrite (IdFacts.clean_test_id_value id ds Hid).
    destruct (Nat.le_gt_cases (length ds) INT_MAX_STR_DIGITS) as [Hs | Hl].
    + rewrite (IdFacts.int_of_digits_short ds Hs). cbn [bind_err]. split.
      * intros HF. inversion HF; subst. rewrite IHok by assumption.
        reflexivity.
      * intros HE. inversion HE; subst; [lia|].
        rewrite IHbad by assumption. reflexivity.
    + rewrite (IdFacts.int_of_digits_long ds Hl). cbn [bind_err]. split.
      * intros HF. inversion HF; subst. lia.
      * reflexivity.
Qed.

Lemma clean_test_ids_values_witness :
  clean_test_ids [lit "C0123"; lit "TC-7" ++ [LF]] = inr [123; 7].
Proof.
  refine (proj1 (clean_test_ids_values [lit "C0123"; lit "TC-7" ++ [LF]]
                                       [lit "0123"; lit "7"] _) _).
  - repeat constructor.
    + exists (lit "C"), []. repeat split; try reflexivity; try discriminate.
      intros b c H. destruct b as [|x [|y b]]; inversion H; reflexivity.
    + exists (lit "TC-"), [LF]. repeat split; try reflexivity; try discriminate.
      intros b c H. apply (f_equal (@rev ascii)) in H.
      rewrite rev_app_distr in H. simpl in H. inversion H. reflexivity.
  - repeat (apply Forall_cons; [apply Nat.leb_le; vm_compute; reflexivity|]).
    apply Forall_nil.
Defined.

(** X2. The ids written by [str] are read back, up to the limit of [int]: for
    a prefix that does not end with a digit and natural numbers [ns], the
    ids [prefix + str(n)] are cleaned to [ns] when every [n] is below
    [10 ** INT_MAX_STR_DIGITS], and [ValueError] is raised when one is
    not. *)
Theorem clean_test_ids_round_trip (prefix : str) (ns : list Z) :
  (forall b c, prefix = b ++ [c] -> Re.digit c = false) ->
  Forall (fun n => 0 <= n) ns ->
  (Forall (fun n => n < 10 ^ Z.of_nat INT_MAX_STR_DIGITS) ns ->
   clean_test_ids (map (fun n => prefix ++ Str.of_Z n) ns) = inr ns)
  /\ (Exists (fun n => 10 ^ Z.of_nat INT_MAX_STR_DIGITS <= n) ns ->
      clean_test_ids (map (fun n => prefix ++ Str.of_Z n) ns)
      = inl ValueError).
Proof.
  intros Hp Hns. unfold clean_test_ids.
  assert (Hlimit : (1 <= INT_MAX_STR_DIGITS)%nat)
    by (apply Nat.leb_le; vm_compute; reflexivity).
  induction Hns as [|n ns Hn _ [IHok IHbad]].
  - split; [reflexivity | intros H; inversion H].
  - cbn [map map_err].
    rewrite (IdFacts.clean_test_id_value (prefix ++ Str.of_Z n) (Str.of_Z n)).
    2:{ destruct (DecimalFacts.of_Z_digits n Hn) as [Hne Hd].
        exists prefix, []. rewrite app_nil_r. auto. }
    pose proof (NumeralFacts.of_Z_length n INT_MAX_STR_DIGITS Hn Hlimit) as Hl.
    destruct (Z.lt_ge_cases n (10 ^ Z.of_nat INT_MAX_STR_DIGITS)) as [Hlt | Hge].
    + rewrite (IdFacts.int_of_digits_short _ (proj2 Hl Hlt)).
      rewrite (DecimalFacts.digits_value_of_Z n Hn). cbn [bind_err]. split.
      * intros HF. inversion HF; subst. rewrite IHok by assumption.
        reflexivity.
      * intros HE. inversion HE; subst; [lia|].
        rewrite IHbad by assumption. reflexivity.
    + rewrite IdFacts.int_of_digits_long.
      2:{ apply Nat.lt_nge. intros Hle. apply Hl in Hle. lia. }
      cbn [bind_err]. split.
      * intros HF. inversion HF; subst. lia.
      * reflexivity.
Qed.

Lemma clean_test_ids_round_trip_witness :
  clean_test_ids (map (fun n => lit "C" ++ Str.of_Z n) [123; 0; 12345])
  = inr [123; 0; 12345].
Proof.
  refine (proj1 (clean_test_ids_round_trip (lit "C") [123; 0; 12345] _ _) _).
  - intros b c H. destruct b as [|x [|y b]]; inversion H; reflexivity.
  - repeat constructor; lia.
  - repeat (apply Forall_cons; [vm_compute; reflexivity|]). apply Forall_nil.
Defined.

(** X3. [clean_test_ids] raises as soon as one id does not end with a digit
    (or a digit and one final line feed): [AttributeError] when the ids
    before it are cleaned, and in any case the error of the first id that
    fails, [AttributeError] or the [ValueError] of [int]. *)
Theorem clean_test_ids_error (test_ids : list str) (bad : str) :
  In bad test_ids ->
  (forall digits, ~ trailing_digits bad digits) ->
  (clean_test_ids test_ids = inl AttributeError
   \/ clean_test_ids test_ids = inl ValueError)
  /\ (forall before after ns,
         test_ids = before ++ bad :: after ->
         clean_test_ids before = inr ns ->
         clean_test_ids test_ids = inl AttributeError).
Proof.
  intros Hin Hbad. unfold clean_test_ids. split.
  - induction test_ids as [|id ids IH]; [destruct Hin|].
    cbn [map_err]. destruct Hin as [-> | Hin].
    + rewrite (IdFacts.clean_test_id_error bad Hbad). left. reflexivity.
    + destruct (IdFacts.clean_test_id_result id) as [[n ->] | [-> | ->]];
        [|left; reflexivity | right; reflexivity].
      cbn [bind_err]. destruct (IH Hin) as [-> | ->]; [left | right];
        reflexivity.
  - intros before after ns -> Hb.
    apply (NumeralFacts.map_err_stops clean_test_id before after bad ns _ Hb).
    apply (IdFacts.clean_test_id_error bad Hbad).
Qed.

Lemma clean_test_ids_error_witness :
  clean_test_ids [lit "C12"; lit "C12a"] = inl AttributeError.
Proof.
  refine (proj2 (clean_test_ids_error [lit "C12"; lit "C12a"] (lit "C12a") _ _)
                [lit "C12"] [] [12] _ _).
  - right. left. reflexivity.
  - intros digits [before [tail [Hs [Hne [Hd Ht]]]]].
    apply (f_equal (@rev ascii)) in Hs. rewrite !rev_app_distr in Hs.
    destruct tail as [|t [|t' tail]]; try discriminate Ht.
    + destruct (exists_last Hne) as [ds [d ->]].
      rewrite rev_app_distr in Hs. simpl in Hs. inversion Hs; subst.
      rewrite forallb_app in Hd. simpl in Hd.
      rewrite andb_false_r in Hd. discriminate.
    + simpl in Ht. apply Ascii.eqb_eq in Ht. subst. simpl in Hs.
      inversion Hs.
  - reflexivity.
  - vm_compute. reflexivity.
Defined.

(** ** Defect ids *)

Module DefectFacts.

Lemma dot_LF (c : ascii) : Re.dot c = negb (Ascii.eqb c LF).
Proof. reflexivity. Qed.

Lemma first_line_rest (s : str) :
  exists rest,
    s = first_line s ++ rest
    /\ forallb Re.dot (first_line s) = true
    /\ match rest with [] => True | c :: _ => Re.dot c = false end.
Proof.
  induction s as [|c s [rest [IH1 [IH2 IH3]]]]; [exists []; auto|].
  cbn [first_line]. destruct (Ascii.eqb c LF) eqn:E.
  - exists (c :: s). repeat split. rewrite dot_LF, E. reflexivity.
  - exists rest. cbn [app forallb]. rewrite <- IH1.
    rewrite dot_LF, E. auto.
Qed.

Lemma clean_test_defect_first_line (s : str) :
  clean_test_defect s = inr (first_line s).
Proof.
  unfold clean_test_defect.
  destruct (first_line_rest s) as [rest [Hs [Hd Hr]]].
  assert (Hm : Re.match_here DEFECT_RE s = Some ([first_line s], rest)).
  { unfold Re.match_here, DEFECT_RE. cbn [Re.rmatch]. unfold Re.rep.
    rewrite Hs at 1.
    apply ReFacts.rep_greedy_run; [exact Hd | exact Hr|].
    rewrite Hs at 1 2. rewrite (IdFacts.firstn_app_exact (first_line s) rest).
    reflexivity. }
  destruct s as [|c s]; cbn [search]; rewrite Hm; reflexivity.
Qed.

Lemma first_line_without_LF (s : str) : ~ In LF s -> first_line s = s.
Proof.
  induction s as [|c s IH]; intros H; [reflexivity|].
  cbn [first_line]. destruct (Ascii.eqb c LF) eqn:E.
  - apply Ascii.eqb_eq in E. exfalso. apply H. left. auto.
  - f_equal. apply IH. intros Hin. apply H. right. exact Hin.
Qed.

Lemma clean_test_defects_value (defect_ids : list str) :
  clean_test_defects defect_ids = inr (map first_line defect_ids).
Proof.
  unfold clean_test_defects.
  induction defect_ids as [|s l IH]; [reflexivity|].
  cbn [map_err map]. rewrite clean_test_defect_first_line.
  cbn [bind_err]. rewrite IH. reflexivity.
Qed.

Lemma first_lines_without_LF (l : list str) :
  Forall (fun s => ~ In LF s) l -> map first_line l = l.
Proof.
  induction 1 as [|s l Hs _ IH]; [reflexivity|].
  cbn [map]. rewrite (first_line_without_LF s Hs), IH. reflexivity.
Qed.

End DefectFacts.

(** X4. [clean_test_defects] never raises and keeps of each defect id the text
    before its first line feed: it is the identity on ids of one line. *)
Theorem clean_test_defects_first_lines (defect_ids : list str) :
  clean_test_defects defect_ids = inr (map first_line defect_ids)
  /\ (Forall (fun s => ~ In LF s) defect_ids ->
      clean_test_defects defect_ids = inr defect_ids).
Proof.
  split; [apply DefectFacts.clean_test_defects_value|].
  intros Hall. rewrite DefectFacts.clean_test_defects_value.
  rewrite (DefectFacts.first_lines_without_LF _ Hall). reflexivity.
Qed.

Module ReprFacts.

Lemma replace_remove (c : ascii) (s : str) :
  Str.replace [c] [] s = filter (fun x => negb (Ascii.eqb x c)) s.
Proof.
  rewrite StrFacts.replace_char.
  induction s as [|x s IH]; [reflexivity|].
  cbn [flat_map filter]. rewrite IH. destruct (Ascii.eqb x c); reflexivity.
Qed.

Lemma filter_join (f : ascii -> bool) (sep : str) (l : list str) :
  filter f (Str.join sep l) = Str.join (filter f sep) (map (filter f) l).
Proof.
  induction l as [|p l IH]; [reflexivity|].
  destruct l as [|q l]; [reflexivity|].
  rewrite StrFacts.join_cons. cbn [map]. rewrite StrFacts.join_cons.
  rewrite !filter_app, IH. reflexivity.
Qed.

Lemma filter_keeps (f : ascii -> bool) (s : str) :
  forallb f s = true -> filter f s = s.
Proof.
  induction s as [|c s IH]; [reflexivity|].
  cbn [forallb filter]. intros H. apply andb_true_iff in H.
  destruct H as [Hc Hs]. rewrite Hc, (IH Hs). reflexivity.
Qed.

Lemma strip_app (a b : str) : unquoted (a ++ b) = unquoted a ++ unquoted b.
Proof. unfold unquoted. rewrite !filter_app. reflexivity. Qed.

Lemma strip_join (sep : str) (l : list str) :
  unquoted (Str.join sep l) = Str.join (unquoted sep) (map unquoted l).
Proof.
  unfold unquoted. rewrite !filter_join, !map_map. reflexivity.
Qed.

Lemma plain_char_inv (c : ascii) :
  plain_char c = true ->
  printable c = true
  /\ Ascii.eqb c SQUOTE = false /\ Ascii.eqb c BACKSLASH = false
  /\ Ascii.eqb c "["%char = false /\ Ascii.eqb c "]"%char = false.
Proof.
  unfold plain_char. rewrite !andb_true_iff, !negb_true_iff. tauto.
Qed.

Lemma strip_plain (s : str) : forallb plain_char s = true -> unquoted s = s.
Proof.
  intros H. unfold unquoted.
  assert (Hf : forall (f : ascii -> bool),
             (forall c, plain_char c = true -> f c = true) ->
             forallb f s = true).
  { intros f Hf. rewrite forallb_forall in *. intros c Hc. apply Hf, H, Hc. }
  rewrite (filter_keeps (fun x => negb (Ascii.eqb x "["%char))),
    (filter_keeps (fun x => negb (Ascii.eqb x "]"%char))),
    (filter_keeps (fun x => negb (Ascii.eqb x SQUOTE))); try reflexivity;
    apply Hf; intros c Hc; apply plain_char_inv in Hc;
    destruct Hc as (_ & H1 & _ & H2 & H3); rewrite ?H1, ?H2, ?H3; reflexivity.
Qed.

Lemma repr_char_plain (c : ascii) :
  plain_char c = true -> repr_char SQUOTE c = [c].
Proof.
  intros H. apply plain_char_inv in H. destruct H as (Hp & Hq & Hb & _ & _).
  unfold repr_char. rewrite Hq, Hb. cbn [orb].
  destruct (Ascii.eqb c "009"%char) eqn:E1;
    [apply Ascii.eqb_eq in E1; subst; discriminate Hp|].
  destruct (Ascii.eqb c LF) eqn:E2;
    [apply Ascii.eqb_eq in E2; subst; discriminate Hp|].
  destruct (Ascii.eqb c "013"%char) eqn:E3;
    [apply Ascii.eqb_eq in E3; subst; discriminate Hp|].
  rewrite Hp. reflexivity.
Qed.

Lemma py_repr_plain (s : str) :
  forallb plain_char s = true -> py_repr s = SQUOTE :: s ++ [SQUOTE].
Proof.
  intros H. unfold py_repr.
  assert (Hq : existsb (Ascii.eqb SQUOTE) s = false).
  { induction s as [|c s IH]; [reflexivity|].
    cbn [forallb existsb] in *. apply andb_true_iff in H.
    destruct H as [Hc Hs]. apply plain_char_inv in Hc.
    destruct Hc as (_ & Hc & _). rewrite Ascii.eqb_sym, Hc. apply IH, Hs. }
  rewrite Hq. cbn [andb]. f_equal. f_equal.
  induction s as [|c s IH]; [reflexivity|].
  cbn [forallb existsb flat_map] in *. apply andb_true_iff in H.
  destruct H as [Hc Hs]. apply orb_false_iff in Hq. destruct Hq as [_ Hq].
  rewrite (repr_char_plain c Hc), (IH Hs Hq). reflexivity.
Qed.

Lemma strip_repr_plain (s : str) :
  forallb plain_char s = true -> unquoted (py_repr s) = s.
Proof.
  intros H. rewrite (py_repr_plain s H).
  change (SQUOTE :: s ++ [SQUOTE]) with ([SQUOTE] ++ s ++ [SQUOTE]).
  rewrite !strip_app, (strip_plain s H). cbn. apply app_nil_r.
Qed.

Lemma no_LF_plain (s : str) : forallb plain_char s = true -> ~ In LF s.
Proof.
  intros H Hin. rewrite forallb_forall in H. specialize (H LF Hin).
  discriminate H.
Qed.

End ReprFacts.

(** [defects_text] never raises. *)
Lemma defects_text_total (defectids : list str) :
  exists d, defects_text defectids = inr d.
Proof.
  unfold defects_text. rewrite DefectFacts.clean_test_defects_value.
  eexists. reflexivity.
Qed.

(** X5. For defect ids made of printable characters other than single
    quotes, backslashes and square brackets, the [defects] text recorded by
    the hook is the ids joined with [", "]. *)
Theorem defects_text_plain (defectids : list str) :
  Forall (fun s => forallb plain_char s = true) defectids ->
  defects_text defectids = inr (Str.join (lit ", ") defectids).
Proof.
  intros H. unfold defects_text.
  rewrite DefectFacts.clean_test_defects_value.
  rewrite DefectFacts.first_lines_without_LF.
  2:{ eapply Forall_impl; [|exact H]. intros s. apply ReprFacts.no_LF_plain. }
  cbn [bind_err]. f_equal.
  change (lit "'") with [SQUOTE].
  change (lit "]") with ["]"%char]. change (lit "[") with ["["%char].
  rewrite !ReprFacts.replace_remove.
  change (filter _ (filter _ (filter _ ?x))) with (unquoted x).
  unfold str_of_list.
  rewrite !ReprFacts.strip_app, ReprFacts.strip_join, map_map.
  change (unquoted (lit "[")) with (@nil ascii).
  change (unquoted (lit "]")) with (@nil ascii).
  change (unquoted (lit ", ")) with (lit ", ").
  rewrite app_nil_r. cbn [app]. f_equal.
  induction H as [|s l Hs _ IH]; [reflexivity|].
  cbn [map]. rewrite (ReprFacts.strip_repr_plain s Hs), IH. reflexivity.
Qed.

Lemma defects_text_plain_witness :
  defects_text [lit "PF-513"; lit "BR-3255"] = inr (lit "PF-513, BR-3255").
Proof.
  apply (defects_text_plain [lit "PF-513"; lit "BR-3255"]).
  repeat constructor.
Defined.

(** ** The report hook *)

Lemma add_result_run (ids : list Z) (status : Z) (comment : comment_arg)
      (defects : option str) (duration : PyFloat.float) (tp : option Params)
      (st : State) :
  add_result ids status comment defects duration tp st
  = (mkState
       (set_results
          (results (self st)
           ++ map (recorded status comment defects duration tp) ids)
          (self st))
       (sent st),
     inr tt).
Proof.
  unfold add_result. rewrite add_result_loop_closed. reflexivity.
Qed.

(** X6. The hook records an item at most once: after a report of the setup or
    call phase of an item that carries case ids, the item is marked, whether
    or not the report could be recorded, and no later report for it changes
    the accumulator or raises. *)
Theorem report_recorded_once (item : Item) (rep later : Report) (st : State)
        (ids : list str) :
  testrail_ids item = Some ids ->
  ids <> [] ->
  reported_phase rep = true ->
  let item1 := fst (pytest_runtest_makereport item rep st) in
  let st1 := fst (snd (pytest_runtest_makereport item rep st)) in
  testrail_processed item1 = true
  /\ pytest_runtest_makereport item1 later st1 = (item1, (st1, inr tt)).
Proof.
  intros Hids Hne Hphase. unfold reported_phase in Hphase.
  assert (Hlen : negb (Nat.eqb (length ids) 0) = true).
  { destruct ids; [congruence | reflexivity]. }
  unfold pytest_runtest_makereport at 1 2. rewrite Hids, Hphase, Hlen.
  cbn [andb]. destruct (testrail_processed item) eqn:Ep; cbn [fst snd].
  - split; [exact Ep|]. unfold pytest_runtest_makereport.
    rewrite Hids, Ep. destruct (_ && _); reflexivity.
  - split; [reflexivity|]. unfold pytest_runtest_makereport.
    cbn [mark_processed testrail_ids testrail_processed]. rewrite Hids.
    destruct (_ && _); reflexivity.
Qed.

Lemma report_recorded_once_witness :
  let item := mkItem (Some [lit "C7"]) None None false in
  let setup := mkReport (lit "setup") (lit "passed") (CommentObj (lit "None"))
                        PyFloat.f_0_4 in
  let call := mkReport (lit "call") (lit "failed") (CommentStr (lit "assert 0"))
                       PyFloat.f_1_4 in
  let st := mkState (sample_plugin []) [] in
  let item1 := fst (pytest_runtest_makereport item setup st) in
  let st1 := fst (snd (pytest_runtest_makereport item setup st)) in
  testrail_processed item1 = true
  /\ pytest_runtest_makereport item1 call st1 = (item1, (st1, inr tt)).
Proof.
  intros item setup call st.
  apply (report_recorded_once item setup call st [lit "C7"]);
    [reflexivity | discriminate | reflexivity].
Defined.

(** The hook does nothing for the teardown phase, for an item without the
    [testrail] marker and for a marker without ids. *)
Theorem report_ignored (item : Item) (rep : Report) (st : State) :
  testrail_ids item = None \/ testrail_ids item = Some []
  \/ reported_phase rep = false ->
  pytest_runtest_makereport item rep st = (item, (st, inr tt)).
Proof.
  unfold pytest_runtest_makereport, reported_phase.
  intros [-> | [-> | ->]]; [reflexivity | | ].
  - rewrite andb_false_r. reflexivity.
  - destruct (testrail_ids item); reflexivity.
Qed.

Lemma report_ignored_witness :
  let item := mkItem (Some [lit "C7"]) None None false in
  let rep := mkReport (lit "teardown") (lit "failed") (CommentStr (lit "boom"))
                      PyFloat.f_0_4 in
  let st := mkState (sample_plugin []) [] in
  pytest_runtest_makereport item rep st = (item, (st, inr tt)).
Proof.
  intros item rep st. apply (report_ignored item rep st).
  right. right. reflexivity.
Defined.

(** X7. The first report of the setup or call phase of an item is recorded: one
    record per case id of the marker, with the status of the outcome (the
    infra-error status for a failure whose text has the marker), the text of
    the failure, the duration and the parameters; the defects are the text
    made from the defect ids, or [None] without defect ids. *)
Theorem report_recorded (item : Item) (rep : Report) (st : State)
        (ids : list str) (ns : list Z) (status : Z) :
  testrail_ids item = Some ids ->
  ids <> [] ->
  reported_phase rep = true ->
  testrail_processed item = false ->
  clean_test_ids ids = inr ns ->
  get_test_outcome (outcome rep) = inr status ->
  exists defects,
    pytest_runtest_makereport item rep st
    = (mark_processed item,
       (mkState
          (set_results
             (results (self st)
              ++ map (recorded status (longrepr rep) defects (rep_duration rep)
                               (callspec_params item)) ns)
             (self st))
          (sent st),
        inr tt))
    /\ (testrail_defect_ids item = None \/ testrail_defect_ids item = Some [] ->
        defects = None)
    /\ (forall l, testrail_defect_ids item = Some l -> l <> [] ->
                  exists text, defects_text l = inr text /\ defects = Some text).
Proof.
  intros Hids Hne Hphase Hproc Hclean Hout. unfold reported_phase in Hphase.
  assert (Hlen : negb (Nat.eqb (length ids) 0) = true).
  { destruct ids; [congruence | reflexivity]. }
  unfold pytest_runtest_makereport. rewrite Hids, Hphase, Hlen, Hproc.
  cbn [andb]. unfold record_report, bind at 1, lift. rewrite Hclean.
  unfold bind at 1. rewrite Hout.
  destruct (testrail_defect_ids item) as [[|d l]|] eqn:Ed.
  - exists None. rewrite add_result_run.
    split; [reflexivity|]. split; [reflexivity|]. intros l' H. inversion H.
    congruence.
  - destruct (defects_text_total (d :: l)) as [text Ht].
    exists (Some text). unfold bind. rewrite Ht. rewrite add_result_run.
    split; [reflexivity|]. split.
    + intros [H | H]; discriminate H.
    + intros l' H _. inversion H; subst. exists text. auto.
  - exists None. rewrite add_result_run.
    split; [reflexivity|]. split; [reflexivity|]. intros l' H. discriminate H.
Qed.

Lemma report_recorded_witness :
  let item := mkItem (Some [lit "C7"; lit "C8"]) (Some [lit "PF-513"]) None
                     false in
  let rep := mkReport (lit "call") (lit "failed")
                      (CommentObj (lit "E  TerraformException: quota"))
                      PyFloat.f_2_6 in
  let st := mkState (sample_plugin []) [] in
  exists defects,
    pytest_runtest_makereport item rep st
    = (mark_processed item,
       (mkState
          (set_results
             (map (recorded 5 (longrepr rep) defects PyFloat.f_2_6 None) [7; 8])
             (self st))
          [],
        inr tt)).
Proof.
  intros item rep st.
  destruct (report_recorded item rep st [lit "C7"; lit "C8"] [7; 8] 5)
    as [defects [H _]];
    [reflexivity | discriminate | reflexivity | reflexivity
    | vm_compute; reflexivity | reflexivity |].
  exists defects. exact H.
Defined.

(** X8. When an id of the marker has no trailing digits, or the outcome is not
    one of the table, the hook raises, nothing is recorded, and the item is
    marked all the same. *)
Theorem report_not_recorded (item : Item) (rep : Report) (st : State)
        (ids : list str) (e : pyerr) :
  testrail_ids item = Some ids ->
  ids <> [] ->
  reported_phase rep = true ->
  testrail_processed item = false ->
  clean_test_ids ids = inl e
  \/ ((exists ns, clean_test_ids ids = inr ns)
      /\ get_test_outcome (outcome rep) = inl e) ->
  pytest_runtest_makereport item rep st
  = (mark_processed item, (st, inl (Builtin e))).
Proof.
  intros Hids Hne Hphase Hproc Herr. unfold reported_phase in Hphase.
  assert (Hlen : negb (Nat.eqb (length ids) 0) = true).
  { destruct ids; [congruence | reflexivity]. }
  unfold pytest_runtest_makereport. rewrite Hids, Hphase, Hlen, Hproc.
  cbn [andb]. unfold record_report, bind at 1, lift.
  destruct Herr as [-> | [[ns ->] Hout]]; [reflexivity|].
  unfold bind at 1. rewrite Hout. reflexivity.
Qed.

Lemma report_not_recorded_witness :
  let item := mkItem (Some [lit "C7"]) None None false in
  let rep := mkReport (lit "call") (lit "xfailed") (CommentStr (lit "boom"))
                      PyFloat.f_0_4 in
  let st := mkState (sample_plugin []) [] in
  pytest_runtest_makereport item rep st
  = (mark_processed item, (st, inl (Builtin KeyError))).
Proof.
  intros item rep st.
  apply (report_not_recorded item rep st [lit "C7"] KeyError);
    [reflexivity | discriminate | reflexivity | reflexivity|].
  right. split; [exists [7]; vm_compute; reflexivity | reflexivity].
Defined.

(** X9. [get_test_outcome] succeeds exactly on the six outcomes of its table,
    raises [KeyError] on any other, and never yields the statuses "untested"
    and "retest". *)
Theorem get_test_outcome_table (outcome : str) :
  (forall status,
      get_test_outcome outcome = inr status
      <-> In (outcome, status) PYTEST_TO_TESTRAIL_STATUS)
  /\ (get_test_outcome outcome = inl KeyError
      <-> ~ In outcome (map fst PYTEST_TO_TESTRAIL_STATUS))
  /\ get_test_outcome outcome <> inr TESTRAIL_TEST_STATUS.untested
  /\ get_test_outcome outcome <> inr TESTRAIL_TEST_STATUS.retest.
Proof.
  unfold get_test_outcome, PYTEST_TO_TESTRAIL_STATUS. cbn [dict_getitem map fst].
  repeat match goal with
         | |- context [Str.eqb outcome ?k] =>
             let E := fresh "E" in
             destruct (Str.eqb outcome k) eqn:E;
             [apply StrFacts.eqb_eq in E; subst outcome;
              vm_compute; repeat split; try discriminate;
              try (intros H; exfalso; apply H; tauto);
              try (intros H; inversion H; tauto);
              try (intros H; repeat (destruct H as [H | H];
                                     [inversion H; reflexivity|]);
                   destruct H)
             |]
         end.
  assert (Hne : forall k, Str.eqb outcome k = false -> outcome <> k).
  { intros k Hk ->. rewrite StrFacts.eqb_refl in Hk. discriminate. }
  repeat split; try discriminate.
  - intros H. repeat (destruct H as [H | H];
                      [inversion H; subst; rewrite StrFacts.eqb_refl in *;
                       discriminate|]). destruct H.
  - intros _ H. repeat (destruct H as [H | H];
                        [subst; rewrite StrFacts.eqb_refl in *; discriminate|]).
    destruct H.
Qed.

(** ** The upload *)

Section Upload.
Context {client : Client}.

Lemma add_results_unfold (run : str) (st : State) :
  add_results run st
  = bind (exclude_blocked run) (fun _ => upload_results run) (sorted_state st).
Proof. reflexivity. Qed.

Lemma map_err_build_entries (p : Plugin) (l : list ResultRecord)
      (data : list Entry) :
  map_err (build_entry p) l = inr data -> Forall2 (entry_of p) l data.
Proof.
  revert data. induction l as [|r l IH]; intros data H; cbn in H.
  - inversion H. constructor.
  - unfold bind_err in H at 1.
    destruct (build_entry p r) as [e | en] eqn:Eb; [discriminate|].
    unfold bind_err in H.
    destruct (map_err (build_entry p) l) as [e | ens]; [discriminate|].
    inversion H; subst. constructor; [|apply IH; reflexivity].
    unfold build_entry, bind_err in Eb.
    destruct (entry_elapsed (duration r)); [discriminate|].
    inversion Eb. repeat split.
Qed.

Lemma upload_results_post (run : str) (st : State) :
  post (upload_results run) st
       (fun st' r =>
          self st' = self st /\ not_raised r
          /\ adds_only (upload_or_single run (self st)) st st').
Proof.
  unfold upload_results, send_post.
  assert (finish : forall st1 st' (r : exn + option str),
             self st' = self st -> not_raised r ->
             adds_only (upload_or_single run (self st)) st st1 ->
             adds_only not_batch st1 st' ->
             self st' = self st /\ not_raised r
             /\ adds_only (upload_or_single run (self st)) st st').
  { intros st1 st' r Hs Hr Ha Hb. split; [exact Hs|]. split; [exact Hr|].
    eapply adds_only_trans; [exact Ha|].
    eapply adds_only_impl; [|exact Hb]. intros req Hq. left. exact Hq. }
  apply post_bind, post_get_self; cbn beta iota.
  apply post_bind, post_lift.
  destruct (map_err (build_entry (self st)) (results (self st)))
    as [e | data] eqn:Ed.
  { apply (finish st); [reflexivity | apply not_raised_builtin
                       | apply adds_only_refl | apply adds_only_refl]. }
  apply post_bind, post_send. intros r3 Hr3.
  set (st3 := mkState (self st) (sent st ++ [_])).
  assert (Ha3 : adds_only (upload_or_single run (self st)) st st3).
  { apply adds_only_send; [apply adds_only_refl|].
    right. exists data. split; [exact Ed | reflexivity]. }
  destruct r3 as [e | response].
  { apply (finish st3); [reflexivity | apply (not_raised_inl _ Hr3) | exact Ha3
                        | apply adds_only_refl]. }
  apply post_bind, post_lift.
  destruct (obj_iter response) as [e | items].
  { apply (finish st3); [reflexivity | apply not_raised_builtin | exact Ha3
                        | apply adds_only_refl]. }
  apply post_bind.
  eapply post_conseq;
    [apply (quiet_for_each not_batch); intros; apply quiet_report_terraform|].
  intros st4 r4 (Hs4 & Hr4 & Ha4).
  destruct r4 as [e | []]; cbn beta iota.
  { apply (finish st3); [exact Hs4 | apply (not_raised_inl _ Hr4) | exact Ha3
                        | exact Ha4]. }
  destruct (last_bound items) as [resp |].
  - destruct (truthy (get_error resp)).
    + apply post_bind, post_lift.
      destruct (obj_status_code resp) as [e | []].
      * apply (finish st3); [exact Hs4 | apply not_raised_builtin | exact Ha3
                            | exact Ha4].
      * apply post_ret.
        apply (finish st3); [exact Hs4 | apply not_raised_inr | exact Ha3
                            | exact Ha4].
    + apply post_ret.
      apply (finish st3); [exact Hs4 | apply not_raised_inr | exact Ha3
                          | exact Ha4].
  - apply post_raise.
    apply (finish st3); [exact Hs4 | apply not_raised_builtin | exact Ha3
                        | exact Ha4].
Qed.

(** What [add_results] leaves: the state after the exclusion of blocked
    cases, but for the requests of the upload. *)
Lemma add_results_after_exclusion (run : str) (st st2 : State)
      (r2 : exn + unit) :
  exclude_blocked run (sorted_state st) = (st2, r2) ->
  self (fst (add_results run st)) = self st2
  /\ adds_only (upload_or_single run (self st2)) st2 (fst (add_results run st)).
Proof.
  intros He. rewrite add_results_unfold. unfold bind. rewrite He.
  destruct r2 as [e | []]; cbn [fst].
  - split; [reflexivity | apply adds_only_refl].
  - pose proof (upload_results_post run st2) as Hp. unfold post in Hp.
    destruct Hp as (Hs & _ & Ha). split; assumption.
Qed.

(** X10. An upload sent by [add_results] goes to the run, and lists one
    entry per accumulated result, in the order of the accumulator after the
    call, each with the case id, the status and the defects of its result,
    the configured version, and the comment built from the result. *)
Theorem upload_lists_accumulator (run : str) (st : State) (path : str)
        (data : list Entry) (cc : option bool) :
  let st' := fst (add_results run st) in
  In (POST path (BResults data) cc) (sent st') ->
  ~ In (POST path (BResults data) cc) (sent st) ->
  path = ADD_RESULTS_URL run
  /\ cc = Some (cert_check (self st))
  /\ Forall2 (entry_of (self st)) (results (self st')) data.
Proof.
  cbv zeta. intros Hin Hnew.
  destruct (exclude_blocked run (sorted_state st)) as [st2 r2] eqn:He.
  destruct (add_results_after_exclusion run st st2 r2 He) as [Hs Ha].
  pose proof (exclude_blocked_post run (sorted_state st)) as Hp.
  unfold post in Hp. rewrite He in Hp. cbn [fst snd] in Hp.
  destruct Hp as (Hc & _ & Hb & _).
  assert (Hcfg : forall r e, entry_of (self st2) r e -> entry_of (self st) r e).
  { unfold same_config in Hc. rewrite Hc. intros r e H. exact H. }
  assert (Hcc : cert_check (self st2) = cert_check (self st)).
  { unfold same_config in Hc. rewrite Hc. reflexivity. }
  destruct (Ha _ Hin) as [H2 | [Hq | [data' [Hd Hreq]]]].
  - destruct (Hb _ H2) as [H0 | H0]; [contradiction | destruct H0].
  - destruct Hq.
  - inversion Hreq; subst. rewrite Hs, Hcc.
    split; [reflexivity|]. split; [reflexivity|].
    eapply Forall2_impl; [exact Hcfg | apply map_err_build_entries, Hd].
Qed.

Lemma Forall2_In_r {A B} (R : A -> B -> Prop) (l : list A) (l' : list B)
      (y : B) :
  Forall2 R l l' -> In y l' -> exists x, In x l /\ R x y.
Proof.
  induction 1 as [|a b l l' Hab _ IH]; intros Hin; [destruct Hin|].
  destruct Hin as [<- | Hin].
  - exists a. split; [left; reflexivity | exact Hab].
  - destruct (IH Hin) as [x [Hx Hr]]. exists x. split; [right|]; assumption.
Qed.

Lemma exclude_blocked_unavailable (run : str) (st : State) (resp : Obj) :
  publish_blocked (self st) = false ->
  reply (sent st) (tests_request run (self st)) = inr resp ->
  truthy (get_error resp) = true ->
  exclude_blocked run st
  = (mkState (self st) (sent st ++ [tests_request run (self st)]),
     inl (Builtin TypeError)).
Proof.
  intros Hpb Hreply Herr.
  unfold exclude_blocked, bind at 1, get_self. rewrite Hpb.
  unfold bind at 1, get_tests, bind at 1, get_self, bind at 1, send_get, send.
  unfold tests_request in Hreply. rewrite Hreply.
  cbn [self sent]. rewrite Herr. reflexivity.
Qed.

Lemma exclude_blocked_run (run : str) (st : State) (resp : Obj)
      (tests : list Obj) (blocked : list (option Obj)) :
  publish_blocked (self st) = false ->
  reply (sent st) (tests_request run (self st)) = inr resp ->
  truthy (get_error resp) = false ->
  obj_iter resp = inr tests ->
  blocked_tests_list tests = inr blocked ->
  exclude_blocked run st
  = (mkState (set_results (filter (not_blocked blocked) (results (self st)))
                          (self st))
             (sent st ++ [tests_request run (self st)]),
     inr tt).
Proof.
  intros Hpb Hreply Herr Hiter Hblocked.
  unfold exclude_blocked, bind at 1, get_self. rewrite Hpb.
  unfold bind at 1, get_tests, bind at 1, get_self, bind at 1, send_get, send.
  unfold tests_request in Hreply. rewrite Hreply.
  cbn [self sent]. rewrite Herr. cbn [ret].
  unfold bind at 1, lift. rewrite Hiter.
  unfold bind at 1. rewrite Hblocked. reflexivity.
Qed.

(** X11. With blocked cases not to be published, when the query of the tests of
    the run reports an error, [add_results] raises [TypeError] after the
    query: the accumulator has been sorted and nothing is uploaded. *)
Theorem add_results_tests_unavailable (run : str) (st : State) (resp : Obj) :
  publish_blocked (self st) = false ->
  reply (sent st) (tests_request run (self st)) = inr resp ->
  truthy (get_error resp) = true ->
  add_results run st
  = (mkState (set_results (sort_by_case_id (results (self st))) (self st))
             (sent st ++ [tests_request run (self st)]),
     inl (Builtin TypeError)).
Proof.
  intros Hpb Hreply Herr. rewrite add_results_unfold. unfold bind.
  rewrite (exclude_blocked_unavailable run (sorted_state st) resp);
    [reflexivity | exact Hpb | exact Hreply | exact Herr].
Qed.

(** X12. With blocked cases not to be published, the accumulator after
    [add_results] holds the sorted results whose case id equals that of no
    blocked test of the run, and no entry of the upload has the case id of a
    blocked test. *)
Theorem blocked_cases_not_uploaded (run : str) (st : State) (resp : Obj)
        (tests : list Obj) (blocked : list (option Obj)) :
  publish_blocked (self st) = false ->
  reply (sent st) (tests_request run (self st)) = inr resp ->
  truthy (get_error resp) = false ->
  obj_iter resp = inr tests ->
  blocked_tests_list tests = inr blocked ->
  let st' := fst (add_results run st) in
  results (self st')
  = filter (not_blocked blocked) (sort_by_case_id (results (self st)))
  /\ forall path data cc entry b,
      In (POST path (BResults data) cc) (sent st') ->
      ~ In (POST path (BResults data) cc) (sent st) ->
      In entry data -> In b blocked ->
      eq_int_opt b (e_case_id entry) = false.
Proof.
  intros Hpb Hreply Herr Hiter Hblocked. cbv zeta.
  pose proof (exclude_blocked_run run (sorted_state st) resp tests blocked
                Hpb Hreply Herr Hiter Hblocked) as He.
  destruct (add_results_after_exclusion run st _ _ He) as [Hs Ha].
  assert (Hres : results (self (fst (add_results run st)))
                 = filter (not_blocked blocked)
                          (sort_by_case_id (results (self st)))).
  { rewrite Hs. reflexivity. }
  split; [exact Hres|].
  intros path data cc entry b Hin Hnew Hentry Hb.
  destruct (Ha _ Hin) as [H2 | [Hq | [data' [Hd Hreq]]]].
  - cbn [sent sorted_state] in H2. apply in_app_iff in H2.
    destruct H2 as [H2 | [H2 | []]]; [contradiction | discriminate H2].
  - destruct Hq.
  - inversion Hreq; subst data'.
    apply map_err_build_entries in Hd.
    destruct (Forall2_In_r _ _ _ entry Hd Hentry) as [r [Hr Her]].
    destruct Her as [Hcase _]. rewrite Hcase.
    cbn [self results set_results] in Hr.
    apply filter_In in Hr. destruct Hr as [_ Hnb].
    unfold not_blocked in Hnb. apply negb_true_iff in Hnb.
    rewrite <- not_true_iff_false in Hnb.
    destruct (eq_int_opt b (case_id r)) eqn:E; [|reflexivity].
    exfalso. apply Hnb. apply existsb_exists. exists b. auto.
Qed.

(** X13. When the response to the upload yields no element, [add_results]
    raises [UnboundLocalError] after the upload (here with blocked cases
    published). *)
Theorem add_results_empty_response (run : str) (st : State)
        (data : list Entry) (resp : Obj) :
  publish_blocked (self st) = true ->
  map_err (build_entry (self st)) (sort_by_case_id (results (self st)))
  = inr data ->
  reply (sent st) (upload_request run (self st) data) = inr resp ->
  obj_iter resp = inr [] ->
  add_results run st
  = (mkState (set_results (sort_by_case_id (results (self st))) (self st))
             (sent st ++ [upload_request run (self st) data]),
     inl (Builtin UnboundLocalError)).
Proof.
  intros Hpb Hdata Hreply Hiter. rewrite add_results_unfold.
  unfold bind at 1, exclude_blocked, bind at 1, get_self.
  cbn [self sorted_state set_results publish_blocked]. rewrite Hpb.
  cbn [ret]. unfold upload_results, bind at 1, get_self.
  assert (Hd : map_err (build_entry (self (sorted_state st)))
                       (results (self (sorted_state st)))
               = inr data) by exact Hdata.
  unfold bind at 1, lift. rewrite Hd.
  unfold bind at 1, send_post, send.
  assert (Hr : reply (sent (sorted_state st))
                     (POST (ADD_RESULTS_URL run) (BResults data)
                           (Some (cert_check (self (sorted_state st)))))
               = inr resp) by exact Hreply.
  rewrite Hr. unfold bind at 1, lift. rewrite Hiter. reflexivity.
Qed.

Lemma build_entry_error (p : Plugin) (r : ResultRecord) (e : pyerr) :
  build_entry p r = inl e -> e = ValueError \/ e = OverflowError.
Proof.
  unfold build_entry, bind_err, entry_elapsed.
  destruct (PyFloat.truth (duration r)); [|discriminate].
  destruct (PyFloat.lt_one (duration r)); [discriminate|].
  unfold bind_err, py_round.
  destruct (duration r); try discriminate; intros H; inversion H; auto.
Qed.

Lemma map_err_first_error {A B} (f : A -> pyerr + B) (l : list A) (x : A)
      (e : pyerr) :
  In x l -> f x = inl e ->
  exists y e', In y l /\ f y = inl e' /\ map_err f l = inl e'.
Proof.
  intros Hin Hx. induction l as [|a l IH]; [destruct Hin|].
  cbn [map_err]. destruct (f a) as [ea | b] eqn:Ea.
  - exists a, ea. split; [left; reflexivity | auto].
  - destruct Hin as [-> | Hin]; [congruence|].
    destruct (IH Hin) as [y [e' [Hy [Hfy Hm]]]].
    exists y, e'. cbn [bind_err]. rewrite Hm.
    split; [right; exact Hy | auto].
Qed.

(** X14. A result whose duration is not a number, or is positive infinity,
    makes [add_results] raise [ValueError] or [OverflowError] before
    anything is sent (here with blocked cases published). *)
Theorem add_results_bad_duration (run : str) (st : State) (r : ResultRecord) :
  publish_blocked (self st) = true ->
  In r (results (self st)) ->
  duration r = SpecFloat.S754_nan
  \/ duration r = SpecFloat.S754_infinity false ->
  exists e,
    (e = ValueError \/ e = OverflowError)
    /\ add_results run st = (sorted_state st, inl (Builtin e)).
Proof.
  intros Hpb Hin Hdur.
  assert (Hr : exists e, build_entry (self (sorted_state st)) r = inl e).
  { unfold build_entry, entry_elapsed.
    destruct Hdur as [-> | ->]; eexists; reflexivity. }
  destruct Hr as [e0 Hr].
  assert (Hin' : In r (results (self (sorted_state st)))).
  { cbn [sorted_state self set_results results].
    eapply Permutation_in; [symmetry; apply SortFacts.sort_perm | exact Hin]. }
  destruct (map_err_first_error _ _ r e0 Hin' Hr) as [y [e [_ [Hy Hm]]]].
  exists e. split; [apply (build_entry_error _ _ _ Hy)|].
  rewrite add_results_unfold.
  unfold bind at 1, exclude_blocked, bind at 1, get_self.
  cbn [self sorted_state set_results publish_blocked]. rewrite Hpb.
  cbn [ret]. unfold upload_results, bind at 1, get_self.
  unfold bind at 1, lift.
  change (mkState (set_results (sort_by_case_id (results (self st))) (self st))
                  (sent st)) with (sorted_state st).
  rewrite Hm. reflexivity.
Qed.

End Upload.

(** ** More on the reconciliation *)

Module SplitFacts.

Lemma scan_no_separator (sep s : str) :
  sep <> [] ->
  snd (Str.scan sep s 0) = [] <-> Str.contains sep s = false.
Proof.
  intros Hsep. induction s as [|c s IH].
  - destruct sep; [congruence|]. simpl. tauto.
  - cbn [Str.scan Str.contains].
    destruct (Str.startswith sep (c :: s)) eqn:E.
    + cbn [snd orb]. destruct (Str.scan sep s (length sep - 1)).
      split; discriminate.
    + cbn [orb]. destruct (Str.scan sep s 0) as [p ps]. exact IH.
Qed.

Lemma second_piece (sep s : str) :
  sep <> [] ->
  nth_error (Str.split sep s) 1 = None <-> Str.contains sep s = false.
Proof.
  intros Hsep. rewrite <- (scan_no_separator sep s Hsep).
  unfold Str.split. destruct (Str.scan sep s 0) as [p [|q ps]]; simpl;
    split; try reflexivity; discriminate.
Qed.

End SplitFacts.

Lemma invalid_test_ids_result (error : str) :
  (exists ids, invalid_test_ids error = inr ids)
  \/ invalid_test_ids error = inl IndexError.
Proof.
  unfold invalid_test_ids. cbv zeta.
  induction (filter (Str.contains (lit "case")) (Str.split (lit ")") error))
    as [|part l IH]; [left; eexists; reflexivity|].
  cbn [map_err].
  destruct (nth_error (Str.split (lit "case ") part) 1); [|right; reflexivity].
  cbn [bind_err]. destruct IH as [[ids ->] | ->];
    [left; eexists; reflexivity | right; reflexivity].
Qed.

Lemma invalid_test_ids_error (error : str) :
  invalid_test_ids error = inl IndexError
  <-> exists part,
      In part (case_fragments error)
      /\ Str.contains (lit "case ") part = false.
Proof.
  unfold invalid_test_ids, case_fragments. cbv zeta.
  induction (filter (Str.contains (lit "case")) (Str.split (lit ")") error))
    as [|part l IH].
  - split; [discriminate | intros [part [[] _]]].
  - cbn [map_err].
    pose proof (SplitFacts.second_piece (lit "case ") part
                  ltac:(discriminate)) as Hp.
    destruct (nth_error (Str.split (lit "case ") part) 1) as [x|] eqn:En.
    + cbn [bind_err]. assert (Hc : Str.contains (lit "case ") part <> false).
      { intros H. apply Hp in H. discriminate. }
      split.
      * intros H.
        destruct (map_err _ l) as [e|ids] eqn:Em; [|discriminate].
        inversion H; subst. destruct (proj1 IH eq_refl) as [q [Hq Hqc]].
        exists q. split; [right; exact Hq | exact Hqc].
      * intros [q [[<- | Hq] Hqc]]; [contradiction|].
        rewrite (proj2 IH (ex_intro _ q (conj Hq Hqc))). reflexivity.
    + split; [|reflexivity]. intros _. exists part.
      split; [left; reflexivity | apply Hp; reflexivity].
Qed.

Section MoreReconcile.
Context {client : Client}.

Lemma for_each_client_only {A} (body : A -> M unit) (l : list A) (st : State) :
  (forall x st1, client_only (snd (body x st1))) ->
  client_only (snd (for_each l body st)).
Proof.
  intros Hbody. revert st. induction l as [|x l IH]; intros st.
  - left. reflexivity.
  - cbn [for_each]. unfold bind. specialize (Hbody x st).
    destruct (body x st) as [st1 [e | []]]; cbn [snd] in *.
    + destruct Hbody as [H | [msg H]]; [discriminate|].
      right. exists msg. exact H.
    + apply IH.
Qed.

Lemma send_client_only (req : Request) (st : State) :
  client_only (snd (bind (send req) (fun _ => ret tt) st)).
Proof.
  unfold bind, send. destruct (reply (sent st) req) as [msg | o]; cbn [snd].
  - right. exists msg. reflexivity.
  - left. reflexivity.
Qed.

Lemma add_error_results_client_only (run : str) (ids : list str) (error : str)
      (st : State) :
  client_only (snd (add_error_results run ids error st)).
Proof.
  unfold add_error_results, bind at 1, get_self.
  apply for_each_client_only. intros r st1. apply send_client_only.
Qed.

(** X15. The generic reconciliation raises [IndexError], and sends nothing,
    exactly when a fragment of the error text (between two closing
    parentheses) has the word "case" but not "case" followed by a space;
    otherwise the case id tokens are extracted. *)
Theorem generic_reconciliation_index_error (run : str) (st st1 : State)
        (error : str) :
  add_results run st = (st1, inr (Some error)) ->
  error <> [] ->
  extract_terraform_errors error = [] ->
  (publish_results_for_run run st = (st1, inl (Builtin IndexError))
   <-> exists part,
       In part (case_fragments error)
       /\ Str.contains (lit "case ") part = false)
  /\ (invalid_test_ids error = inl IndexError
      \/ exists ids, invalid_test_ids error = inr ids).
Proof.
  intros Hadd Hne Hex.
  split; [|destruct (invalid_test_ids_result error); auto].
  rewrite <- invalid_test_ids_error.
  unfold publish_results_for_run, bind at 1. rewrite Hadd.
  destruct error as [|c error]; [congruence|]. cbn [truthy]. cbv zeta.
  rewrite Hex. unfold bind at 1, lift.
  destruct (invalid_test_ids_result (c :: error)) as [[ids Hi] | Hi];
    rewrite Hi; [|tauto].
  split; [|discriminate]. intros H. exfalso.
  unfold bind at 1, get_self in H.
  pose proof (for_each_client_only
                (fun id => add_error_results run [id] (c :: error)) ids st1
                (fun id st2 =>
                   add_error_results_client_only run [id] (c :: error) st2))
    as Hq.
  rewrite H in Hq. destruct Hq as [Hq | [msg Hq]]; discriminate Hq.
Qed.

End MoreReconcile.

(** ** What the infrastructure-error pattern matches *)

Module TerraformFacts.

Lemma match_sound (s rest : str) (gs : list str) :
  Re.match_here TERRAFORM_RE s = Some (gs, rest) ->
  exists id mid msg,
    s = lit "case " ++ id ++ mid ++ lit "TerraformException: " ++ msg
            ++ lit "\n" ++ rest
    /\ id <> [] /\ forallb Re.digit id = true
    /\ forallb Re.dot mid = true
    /\ msg <> [] /\ forallb Re.dot msg = true
    /\ gs = [id; msg].
Proof.
  unfold Re.match_here, TERRAFORM_RE. cbn [Re.rmatch].
  destruct (Re.strip_prefix (lit "case ") s) as [s1|] eqn:E1; [|discriminate].
  apply ReFacts.strip_prefix_sound in E1. subst s.
  destruct s1 as [|d s1]; [discriminate|].
  destruct (Re.digit d) eqn:Ed; [|discriminate].
  unfold Re.rep. intros H. apply ReFacts.rep_greedy_sound in H.
  destruct H as [ds [r1 [-> [Hds H]]]].
  apply ReFacts.rep_lazy_sound in H. destruct H as [mid [r2 [-> [Hmid H]]]].
  destruct (Re.strip_prefix (lit "TerraformException: ") r2) as [r3|] eqn:E3;
    [|discriminate].
  apply ReFacts.strip_prefix_sound in E3. subst r2.
  destruct r3 as [|m r3]; [discriminate|].
  destruct (Re.dot m) eqn:Em; [|discriminate].
  apply ReFacts.rep_lazy_sound in H. destruct H as [ms [r4 [-> [Hms H]]]].
  destruct (Re.strip_prefix (lit "\n") r4) as [r5|] eqn:E5; [|discriminate].
  apply ReFacts.strip_prefix_sound in E5. subst r4.
  change (d :: ds ++ ?x) with ((d :: ds) ++ x) in H.
  change (m :: ms ++ ?x) with ((m :: ms) ++ x) in H.
  rewrite !IdFacts.firstn_app_exact in H. inversion H; subst.
  exists (d :: ds), mid, (m :: ms).
  split; [reflexivity|]. split; [discriminate|].
  split; [simpl; rewrite Ed, Hds; reflexivity|]. split; [exact Hmid|].
  split; [discriminate|]. split; [simpl; rewrite Em, Hms; reflexivity|].
  reflexivity.
Qed.

Lemma finditer_sound (r : Re.regex) (s : str) (skip : nat) (gs : list str) :
  In gs (Re.finditer_from r s skip) ->
  exists pre suf rest, s = pre ++ suf /\ Re.match_here r suf = Some (gs, rest).
Proof.
  revert skip. induction s as [|c s IH]; intros skip Hin; [destruct Hin|].
  cbn [Re.finditer_from] in Hin.
  assert (Hrec : forall n, In gs (Re.finditer_from r s n) ->
                           exists pre suf rest,
                             c :: s = pre ++ suf
                             /\ Re.match_here r suf = Some (gs, rest)).
  { intros n H. destruct (IH n H) as [pre [suf [rest [-> Hm]]]].
    exists (c :: pre), suf, rest. auto. }
  destruct skip as [|n]; [|apply (Hrec n Hin)].
  destruct (Re.match_here r (c :: s)) as [[gs' rest]|] eqn:E.
  - destruct Hin as [<- | Hin]; [|apply (Hrec _ Hin)].
    exists [], (c :: s), rest. auto.
  - apply (Hrec _ Hin).
Qed.

End TerraformFacts.

(** X16. Every item of the dict of [extract_terraform_errors] is read from the
    error text: the key is a run of digits that follows "case ", the message
    a non-empty text between "TerraformException: " and a backslash followed
    by "n", with no line feed between the key and the end of the message.
    A text without "TerraformException: " gives the empty dict, so that the
    generic reconciliation is the one that runs. *)
Theorem extracted_errors_occur (error : str) :
  (forall id msg,
      In (id, msg) (extract_terraform_errors error) ->
      id <> [] /\ forallb Re.digit id = true
      /\ msg <> [] /\ ~ In LF msg
      /\ exists before mid after,
          error = before ++ lit "case " ++ id ++ mid
                         ++ lit "TerraformException: " ++ msg ++ lit "\n"
                         ++ after
          /\ ~ In LF mid)
  /\ (~ occurs_in (lit "TerraformException: ") error ->
      extract_terraform_errors error = []).
Proof.
  assert (Hsound : forall id msg,
             In (id, msg) (extract_terraform_errors error) ->
             id <> [] /\ forallb Re.digit id = true
             /\ msg <> [] /\ ~ In LF msg
             /\ exists before mid after,
                 error = before ++ lit "case " ++ id ++ mid
                                ++ lit "TerraformException: " ++ msg
                                ++ lit "\n" ++ after
                 /\ ~ In LF mid).
  { intros id msg Hin.
    apply (proj2 (extract_terraform_errors_spec error)) in Hin.
    destruct Hin as [b [a [Hm _]]].
    assert (Hin : In (id, msg) (terraform_matches error)).
    { rewrite Hm. apply in_or_app. right. left. reflexivity. }
    unfold terraform_matches in Hin. apply in_map_iff in Hin.
    destruct Hin as [gs [Hgs Hin]].
    apply TerraformFacts.finditer_sound in Hin.
    destruct Hin as [pre [suf [rest [Herr Hmatch]]]].
    apply TerraformFacts.match_sound in Hmatch.
    destruct Hmatch as [id' [mid [msg' [-> [Hid [Hd [Hmid [Hmsg [Hdm ->]]]]]]]]].
    cbn in Hgs. inversion Hgs; subst id' msg'.
    assert (Hdot : forall t, forallb Re.dot t = true -> ~ In LF t).
    { intros t Ht Hl. rewrite forallb_forall in Ht. specialize (Ht LF Hl).
      discriminate Ht. }
    split; [exact Hid|]. split; [exact Hd|]. split; [exact Hmsg|].
    split; [apply Hdot, Hdm|].
    exists pre, mid, rest. split; [exact Herr | apply Hdot, Hmid]. }
  split; [exact Hsound|].
  intros Hno. destruct (extract_terraform_errors error) as [|[id msg] l] eqn:E;
    [reflexivity|].
  exfalso. apply Hno.
  destruct (Hsound id msg (or_introl eq_refl))
    as (_ & _ & _ & _ & before & mid & after & Herr & _).
  exists (before ++ lit "case " ++ id ++ mid), (msg ++ lit "\n" ++ after).
  rewrite Herr, <- !app_assoc. reflexivity.
Qed.

Lemma extracted_errors_occur_witness :
  extract_terraform_errors (lit "Field :case_id is not a valid test case.") = [].
Proof.
  apply (proj2 (extracted_errors_occur
                  (lit "Field :case_id is not a valid test case."))).
  intros H. apply StrFacts.contains_iff in H. vm_compute in H. discriminate H.
Defined.

(** ** The end of the session *)

Section Finish.
Context {client : Client}.




End Finish.

(** ** Further sample sessions *)

Lemma upload_lists_accumulator_witness :
  let c := scripted [accepted] in
  Forall2 (entry_of (self two_results))
          (results (self (fst (@add_results c (lit "1") two_results))))
          two_entries.
Proof.
  intros c.
  refine (proj2 (proj2 (@upload_lists_accumulator c (lit "1") two_results
                          (ADD_RESULTS_URL (lit "1")) two_entries (Some true)
                          _ _))).
  - vm_compute. left. reflexivity.
  - intros [].
Defined.

Lemma add_results_tests_unavailable_witness :
  let c := scripted [failed_query] in
  @add_results c (lit "1") two_cautious_results
  = (mkState (set_results (sort_by_case_id (results (self two_cautious_results)))
                          (self two_cautious_results))
             (sent two_cautious_results
              ++ [tests_request (lit "1") (self two_cautious_results)]),
     inl (Builtin TypeError)).
Proof.
  intros c.
  refine (@add_results_tests_unavailable c (lit "1") two_cautious_results
            (SRecord [(lit "error",
                       SText (lit "Field :run_id is not a valid test run."))]
                     true) _ _ _);
    vm_compute; reflexivity.
Defined.

Lemma blocked_cases_not_uploaded_witness :
  let c := scripted [inr (SList tests_of_run); accepted] in
  results (self (fst (@add_results c (lit "1") two_cautious_results)))
  = filter (@not_blocked c [Some (SInt 17)])
           (sort_by_case_id (results (self two_cautious_results))).
Proof.
  intros c.
  refine (proj1 (@blocked_cases_not_uploaded c (lit "1") two_cautious_results
                   (SList tests_of_run) tests_of_run [Some (SInt 17)]
                   _ _ _ _ _));
    vm_compute; reflexivity.
Defined.

Lemma add_results_empty_response_witness :
  let c := scripted [inr (SList [])] in
  @add_results c (lit "1") two_results
  = (mkState (set_results (sort_by_case_id (results (self two_results)))
                          (self two_results))
             (sent two_results
              ++ [upload_request (lit "1") (self two_results) two_entries]),
     inl (Builtin UnboundLocalError)).
Proof.
  intros c.
  refine (@add_results_empty_response c (lit "1") two_results two_entries
            (SList []) _ _ _ _);
    vm_compute; reflexivity.
Defined.

Lemma add_results_bad_duration_witness :
  let c := scripted [] in
  let r := mkResult 17 1 (lit "None") SpecFloat.S754_nan None None in
  let st := mkState (sample_plugin [r]) [] in
  exists e,
    (e = ValueError \/ e = OverflowError)
    /\ @add_results c (lit "1") st = (sorted_state st, inl (Builtin e)).
Proof.
  intros c r st.
  refine (@add_results_bad_duration c (lit "1") st r _ _ _).
  - reflexivity.
  - left. reflexivity.
  - left. reflexivity.
Defined.

Lemma generic_reconciliation_index_error_witness :
  let c := scripted [rejected unnamed_case_error] in
  @publish_results_for_run c (lit "1") two_results
  = (fst (@add_results c (lit "1") two_results), inl (Builtin IndexError)).
Proof.
  intros c.
  refine (proj2 (proj1 (@generic_reconciliation_index_error c (lit "1")
                          two_results
                          (fst (@add_results c (lit "1") two_results))
                          unnamed_case_error _ _ _)) _).
  - vm_compute. reflexivity.
  - discriminate.
  - vm_compute. reflexivity.
  - exists unnamed_case_error. split; vm_compute; [left|]; reflexivity.
Defined.



